(** * Inkly: the session / reward state machine

    A shallow embedding of [models.py] and of the two variants of
    [game_manager.py] (the auto-provisioning one under [templates_static/]
    and the strict one under [Inkly/templates_static/]), followed by the
    properties of scoring, leveling, achievements, difficulty selection,
    prompt generation and the leaderboard.

    Modelling conventions
    - Python [int] is [Z]; a Python number that may be a float
      ([time_spent], [random.random()], the accuracy of a leaderboard row)
      is an exact rational [Q].  The embedding is exact on integers and on
      every float whose intermediate results are representable (for
      instance multiples of 1/4 of moderate size); IEEE rounding of other
      products and quotients is not modelled.
    - [Player] objects are shared between the [players] dict and the
      sessions that reference them, so they live in a store addressed by
      references; the dicts hold the references.
    - [players] is a Python dict whose iteration order is observable (the
      leaderboard sorts [players.values()] with a stable sort), hence an
      association list in insertion order.  [sessions] and
      [multiplayer_rooms] are only ever looked up by key: finite maps.
    - [uuid.uuid4()], [datetime.now()], [random.random()] and
      [random.choice] are inputs supplied by the environment. *)

From Stdlib Require Import ZArith QArith Qround Lia Lqa.
From stdpp Require Import base option list gmap strings relations sorting.

Local Open Scope string_scope.
Local Open Scope Z_scope.

(** ** Numbers *)

(** [int(x)] on a float: truncation toward zero. *)
Definition py_int (x : Q) : Z := Z.quot (Qnum x) (Z.pos (Qden x)).

(** The comparison [x < y] on numbers. *)
Definition Qltb (x y : Q) : bool := negb (Qle_bool y x).

(** [round(x)] as the specification words it: the nearest integer, a tie
    going to the even neighbour (Python's [round]).  The code never calls
    it on a score; it is here to compare the specification's formula with
    the code's. *)
Definition spec_round (x : Q) : Z :=
  let f := Qfloor x in
  match (x - inject_Z f ?= 1 # 2)%Q with
  | Lt => f
  | Gt => f + 1
  | Eq => if Z.even f then f else f + 1
  end.

(** [round(x, 1)]: [x] rounded to one decimal, ties to even. *)
Definition round1 (x : Q) : Q := (inject_Z (spec_round (x * 10)) / 10)%Q.

(** ** models.py: enumerations and dataclasses *)

Inductive Difficulty := EASY | MEDIUM | HARD.

Inductive BrushType := NORMAL | NEON | SPRAY | MARKER | SPARKLE.

#[global] Instance Difficulty_eq_dec : EqDecision Difficulty.
Proof. solve_decision. Defined.

#[global] Instance BrushType_eq_dec : EqDecision BrushType.
Proof. solve_decision. Defined.

Record Prompt := {
  text : string;
  difficulty : Difficulty;
  time_limit : Z
}.

Record Player := {
  id : string;
  name : string;
  level : Z;
  xp : Z;
  streak : Z;
  total_drawings : Z;
  correct_guesses : Z;
  brushes_unlocked : list BrushType;
  achievements : list string;
  last_played : option Z
}.

(** A reference to a [Player] object: its index in the store. *)
Abbreviation ref := nat.

Record DrawingSession := {
  session_id : string;
  player : ref;
  prompt : Prompt;
  started_at : Z;
  drawing_data : option string;
  ai_guesses : list string;
  correct : bool;
  time_spent : Q;
  score : Z
}.

(** [Player(id=..., name=..., last_played=...)]: the dataclass defaults. *)
Definition new_Player (pid nm : string) (lp : option Z) : Player :=
  {| id := pid; name := nm; level := 1; xp := 0; streak := 0;
     total_drawings := 0; correct_guesses := 0;
     brushes_unlocked := [NORMAL]; achievements := []; last_played := lp |}.

(** [DrawingSession(session_id=..., player=..., prompt=..., started_at=...)]. *)
Definition new_DrawingSession (sid : string) (p : ref) (pr : Prompt) (t0 : Z)
  : DrawingSession :=
  {| session_id := sid; player := p; prompt := pr; started_at := t0;
     drawing_data := None; ai_guesses := []; correct := false;
     time_spent := 0; score := 0 |}.

(** Attribute assignment on a [Player]. *)
Definition set_id (v : string) (p : Player) : Player :=
  {| id := v; name := name p; level := level p; xp := xp p; streak := streak p;
     total_drawings := total_drawings p; correct_guesses := correct_guesses p;
     brushes_unlocked := brushes_unlocked p; achievements := achievements p;
     last_played := last_played p |}.

Definition set_level (v : Z) (p : Player) : Player :=
  {| id := id p; name := name p; level := v; xp := xp p; streak := streak p;
     total_drawings := total_drawings p; correct_guesses := correct_guesses p;
     brushes_unlocked := brushes_unlocked p; achievements := achievements p;
     last_played := last_played p |}.

Definition set_xp (v : Z) (p : Player) : Player :=
  {| id := id p; name := name p; level := level p; xp := v; streak := streak p;
     total_drawings := total_drawings p; correct_guesses := correct_guesses p;
     brushes_unlocked := brushes_unlocked p; achievements := achievements p;
     last_played := last_played p |}.

Definition set_streak (v : Z) (p : Player) : Player :=
  {| id := id p; name := name p; level := level p; xp := xp p; streak := v;
     total_drawings := total_drawings p; correct_guesses := correct_guesses p;
     brushes_unlocked := brushes_unlocked p; achievements := achievements p;
     last_played := last_played p |}.

Definition set_total_drawings (v : Z) (p : Player) : Player :=
  {| id := id p; name := name p; level := level p; xp := xp p; streak := streak p;
     total_drawings := v; correct_guesses := correct_guesses p;
     brushes_unlocked := brushes_unlocked p; achievements := achievements p;
     last_played := last_played p |}.

Definition set_correct_guesses (v : Z) (p : Player) : Player :=
  {| id := id p; name := name p; level := level p; xp := xp p; streak := streak p;
     total_drawings := total_drawings p; correct_guesses := v;
     brushes_unlocked := brushes_unlocked p; achievements := achievements p;
     last_played := last_played p |}.

Definition set_brushes_unlocked (v : list BrushType) (p : Player) : Player :=
  {| id := id p; name := name p; level := level p; xp := xp p; streak := streak p;
     total_drawings := total_drawings p; correct_guesses := correct_guesses p;
     brushes_unlocked := v; achievements := achievements p;
     last_played := last_played p |}.

Definition set_achievements (v : list string) (p : Player) : Player :=
  {| id := id p; name := name p; level := level p; xp := xp p; streak := streak p;
     total_drawings := total_drawings p; correct_guesses := correct_guesses p;
     brushes_unlocked := brushes_unlocked p; achievements := v;
     last_played := last_played p |}.

Definition set_last_played (v : option Z) (p : Player) : Player :=
  {| id := id p; name := name p; level := level p; xp := xp p; streak := streak p;
     total_drawings := total_drawings p; correct_guesses := correct_guesses p;
     brushes_unlocked := brushes_unlocked p; achievements := achievements p;
     last_played := v |}.

(** ** Player methods

    A method that mutates [self] is a function from the object before the
    call to the object after it, paired with the returned value if any. *)

(** [Player.add_xp]: one threshold test per call, no loop. *)
Definition add_xp (points : Z) (self : Player) : Player * bool :=
  let self := set_xp (xp self + points) self in
  let xp_needed := level self * 100 in
  if xp_needed <=? xp self then
    let self := set_level (level self + 1) self in
    let self := set_xp (xp self - xp_needed) self in
    (self, true)
  else (self, false).

(** [Player.unlock_brush]. *)
Definition unlock_brush (brush : BrushType) (self : Player) : Player :=
  if bool_decide (brush ∈ brushes_unlocked self) then self
  else set_brushes_unlocked (brushes_unlocked self ++ [brush]) self.

(** [Player.add_achievement]. *)
Definition add_achievement (achievement : string) (self : Player) : Player :=
  if bool_decide (achievement ∈ achievements self) then self
  else set_achievements (achievements self ++ [achievement]) self.

(** ** PromptGenerator *)

Definition EASY_PROMPTS : list string :=
  ["cachorro"; "gato"; "casa"; "árvore"; "sol"; "lua"; "estrela";
   "coração"; "flor"; "carro"; "bicicleta"; "pássaro"; "peixe"].

Definition MEDIUM_PROMPTS : list string :=
  ["dragão"; "robô"; "castelo"; "foguete"; "dinossauro"; "sereia";
   "unicórnio"; "pirata"; "ninja"; "bruxa"; "vampiro"; "zumbi"].

Definition HARD_PROMPTS : list string :=
  ["felicidade"; "liberdade"; "solidão"; "caos"; "harmonia";
   "tempo"; "memória"; "sonho"; "impossível"; "infinito"].

Definition SURPRISE_PROMPTS : list string :=
  ["um gato astronauta"; "pizza voadora"; "robô jardineiro";
   "dragão dormindo"; "árvore de doces"; "nuvem com pernas";
   "peixe-guitarra"; "cachorro-unicórnio"; "casa flutuante"].

(** [random.choice(seq)]: the element at an index below [len(seq)]; the
    index is the environment's draw, reduced into range. *)
Definition random_choice {A} (draw : nat) (seq : list A) (dflt : A) : A :=
  nth (draw mod length seq) seq dflt.

(** The random inputs of one [PromptGenerator.generate] call:
    [coin] is the value of [random.random()], in [0, 1);
    [pick_text] the draw of [random.choice] over the chosen pool. *)
Record PromptDraw := {
  coin : Q;
  pick_text : nat
}.

(** The guard of the surprise branch, [surprise and random.random() > 0.7]. *)
Definition surprise_taken (surprise : bool) (rnd : PromptDraw) : bool :=
  surprise && Qltb (7 # 10) (coin rnd).

(** [PromptGenerator.generate]. *)
Definition generate (rnd : PromptDraw) (d : Difficulty) (surprise : bool) : Prompt :=
  if surprise_taken surprise rnd then
    let txt := random_choice (pick_text rnd) SURPRISE_PROMPTS "" in
    {| text := txt; difficulty := MEDIUM; time_limit := 30 |}
  else
    let '(txt, limit) :=
      match d with
      | EASY => (random_choice (pick_text rnd) EASY_PROMPTS "", 20)
      | MEDIUM => (random_choice (pick_text rnd) MEDIUM_PROMPTS "", 25)
      | HARD => (random_choice (pick_text rnd) HARD_PROMPTS "", 30)
      end in
    {| text := txt; difficulty := d; time_limit := limit |}.

(** The pool and the time limit that [generate] pairs with a difficulty
    outside the surprise branch. *)
Definition pool_of (d : Difficulty) : list string :=
  match d with
  | EASY => EASY_PROMPTS
  | MEDIUM => MEDIUM_PROMPTS
  | HARD => HARD_PROMPTS
  end.

Definition limit_of (d : Difficulty) : Z :=
  match d with EASY => 20 | MEDIUM => 25 | HARD => 30 end.

(** ** AchievementSystem *)

Record Achievement := {
  ach_name : string;
  ach_description : string;
  ach_xp : Z
}.

(** The [ACHIEVEMENTS] table, in source order. *)
Definition ACHIEVEMENTS : list (string * Achievement) :=
  [ ("first_draw",
     {| ach_name := "Primeiro Traço";
        ach_description := "Complete seu primeiro desenho"; ach_xp := 50 |});
    ("speed_demon",
     {| ach_name := "Demônio da Velocidade";
        ach_description := "Complete um desenho em menos de 5 segundos";
        ach_xp := 100 |});
    ("perfectionist",
     {| ach_name := "Perfeccionista";
        ach_description := "Acerte 10 desenhos seguidos"; ach_xp := 200 |});
    ("night_owl",
     {| ach_name := "Coruja Noturna";
        ach_description := "Jogue depois da meia-noite"; ach_xp := 75 |});
    ("level_10",
     {| ach_name := "Artista Dedicado";
        ach_description := "Alcance o nível 10"; ach_xp := 500 |});
    ("abstract_master",
     {| ach_name := "Mestre Abstrato";
        ach_description := "Confunda a IA 5 vezes"; ach_xp := 150 |}) ].

(** [d[key]] on a dict written as an association list; [None] stands for
    [KeyError]. *)
Fixpoint assoc {V} (key : string) (d : list (string * V)) : option V :=
  match d with
  | [] => None
  | (k, v) :: rest => if String.eqb k key then Some v else assoc key rest
  end.

(** One rule of [check_achievements]: when [cond] holds and [aid] is not
    yet on the player, record it and append it to the result. *)
Definition fire (cond : bool) (aid : string) (st : Player * list string)
  : Player * list string :=
  let '(p, new_achievements) := st in
  if cond && negb (bool_decide (aid ∈ achievements p)) then
    (add_achievement aid p, (new_achievements ++ [aid])%list)
  else st.

(** [AchievementSystem.check_achievements]: the five rules in source
    order.  The last rule tests membership first and the count second;
    both tests are pure, so the order does not matter. *)
Definition check_achievements (p : Player) (session : DrawingSession)
  : Player * list string :=
  let st := (p, []) in
  let st := fire (total_drawings (st.1) =? 1) "first_draw" st in
  let st := fire (Qltb (time_spent session) 5 && correct session) "speed_demon" st in
  let st := fire (10 <=? streak (st.1)) "perfectionist" st in
  let st := fire (10 <=? level (st.1)) "level_10" st in
  let st := fire (5 <=? total_drawings (st.1) - correct_guesses (st.1))
                 "abstract_master" st in
  st.

(** ** game_manager.py: the manager's state and its effects *)

(** The exceptions of the embedding.  [DanglingRef] has no Python
    counterpart (a Python reference always designates an object): it marks
    the runs of the embedding from a state in which a dict holds a
    reference outside the store, which [wf] below excludes. *)
Inductive exn :=
| ValueError (msg : string)
| KeyError (key : string)
| DanglingRef.

Inductive outcome (A : Type) :=
| Ok (a : A)
| Raise (e : exn).

Arguments Ok {A} a.
Arguments Raise {A} e.

Record GameManager := {
  store : list Player;
  players : list (string * ref);
  sessions : gmap string DrawingSession;
  multiplayer_rooms : gmap string (list string)
}.

(** [GameManager()]. *)
Definition init : GameManager :=
  {| store := []; players := []; sessions := ∅; multiplayer_rooms := ∅ |}.

Definition set_store (v : list Player) (gm : GameManager) : GameManager :=
  {| store := v; players := players gm; sessions := sessions gm;
     multiplayer_rooms := multiplayer_rooms gm |}.

Definition set_players (v : list (string * ref)) (gm : GameManager) : GameManager :=
  {| store := store gm; players := v; sessions := sessions gm;
     multiplayer_rooms := multiplayer_rooms gm |}.

Definition set_sessions (v : gmap string DrawingSession) (gm : GameManager)
  : GameManager :=
  {| store := store gm; players := players gm; sessions := v;
     multiplayer_rooms := multiplayer_rooms gm |}.

Definition set_multiplayer_rooms (v : gmap string (list string)) (gm : GameManager)
  : GameManager :=
  {| store := store gm; players := players gm; sessions := sessions gm;
     multiplayer_rooms := v |}.

(** A computation that reads and writes the manager and may raise; the
    state reached is returned in both cases, since Python does not undo
    the mutations that precede a [raise]. *)
Definition M (A : Type) : Type := GameManager → GameManager * outcome A.

#[global] Instance M_ret : MRet M := λ A a gm, (gm, Ok a).

#[global] Instance M_bind : MBind M := λ A B f m gm,
  match m gm with
  | (gm', Ok a) => f a gm'
  | (gm', Raise e) => (gm', Raise e)
  end.

Definition raise {A} (e : exn) : M A := λ gm, (gm, Raise e).

Definition gets {A} (f : GameManager → A) : M A := λ gm, (gm, Ok (f gm)).

Definition modify (f : GameManager → GameManager) : M unit := λ gm, (f gm, Ok tt).

(** [for x in xs: body(x)]. *)
Fixpoint for_each {A} (xs : list A) (body : A → M unit) : M unit :=
  match xs with
  | [] => mret tt
  | x :: rest => body x ;; for_each rest body
  end.

(** Reading the object behind a reference. *)
Definition deref (r : ref) : M Player := λ gm,
  match store gm !! r with
  | Some p => (gm, Ok p)
  | None => (gm, Raise DanglingRef)
  end.

(** Calling a mutating method on the object behind a reference. *)
Definition invoke {A} (r : ref) (method : Player → Player * A) : M A :=
  p ← deref r;
  modify (λ gm, set_store (<[r := (method p).1]> (store gm)) gm) ;;
  mret (method p).2.

(** Assigning to attributes of the object behind a reference. *)
Definition assign (r : ref) (f : Player → Player) : M unit :=
  invoke r (λ p, (f p, tt)).

(** [d[key] = v] on a dict in insertion order: an existing key keeps its
    position, a new key goes last. *)
Fixpoint dict_set {V} (key : string) (v : V) (d : list (string * V))
  : list (string * V) :=
  match d with
  | [] => [(key, v)]
  | (k, w) :: rest =>
      if String.eqb k key then (k, v) :: rest else (k, w) :: dict_set key v rest
  end.

(** [d.values()]. *)
Definition dict_values {V} (d : list (string * V)) : list V := d.*2.

(** ** GameManager: players and sessions *)

(** [create_player]; [uuid] is the value of [uuid.uuid4()], [now] that of
    [datetime.now()].  The new object is allocated at the end of the store. *)
Definition create_player (uuid : string) (now : Z) (nm : string) : M ref :=
  let player_id := uuid in
  player ← gets (λ gm, length (store gm));
  modify (λ gm, set_store (store gm ++ [new_Player player_id nm (Some now)]) gm) ;;
  modify (λ gm, set_players (dict_set player_id player (players gm)) gm) ;;
  mret player.

(** [get_player]: [self.players.get(player_id)]. *)
Definition get_player (player_id : string) : M (option ref) :=
  gets (λ gm, assoc player_id (players gm)).

(** What the environment supplies to one [start_session] call. *)
Record SessionDraw := {
  uuid_player : string;      (* uuid4() of the auto-created player *)
  now_player : Z;            (* datetime.now() of the auto-created player *)
  pick_difficulty : nat;     (* draw of random.choice([MEDIUM, HARD]) *)
  prompt_draw : PromptDraw;  (* draws of PromptGenerator.generate *)
  uuid_session : string;     (* uuid4() of the session *)
  now_session : Z            (* datetime.now() of the session *)
}.

(** The difficulty adjustment of [start_session]; in the source the three
    branches assign to the parameter [difficulty], whose incoming value is
    never read. *)
Definition adjust_difficulty (lvl : Z) (pick : nat) : Difficulty :=
  if lvl <? 3 then EASY
  else if lvl <? 7 then MEDIUM
  else random_choice pick [MEDIUM; HARD] MEDIUM.

(** The common tail of both [start_session] variants, from the difficulty
    adjustment on. *)
Definition open_session (env : SessionDraw) (player : ref)
    (difficulty : Difficulty) (surprise_mode : bool) : M DrawingSession :=
  p ← deref player;
  let difficulty := adjust_difficulty (level p) (pick_difficulty env) in
  let prompt := generate (prompt_draw env) difficulty surprise_mode in
  let session_id := uuid_session env in
  let session := new_DrawingSession session_id player prompt (now_session env) in
  modify (λ gm, set_sessions (<[session_id := session]> (sessions gm)) gm) ;;
  mret session.

(** [start_session], the variant of [templates_static/game_manager.py]:
    an unknown [player_id] gets a player created on the spot. *)
Definition start_session (env : SessionDraw) (player_id : string)
    (difficulty : Difficulty) (surprise_mode : bool) : M DrawingSession :=
  found ← get_player player_id;
  player ← match found with
           | Some player => mret player
           | None =>
               player ← create_player (uuid_player env) (now_player env)
                          ("Player_" +:+ player_id);
               assign player (set_id player_id) ;;
               modify (λ gm, set_players (dict_set player_id player (players gm)) gm) ;;
               mret player
           end;
  open_session env player difficulty surprise_mode.

Module Inkly.

(** [start_session], the variant of [Inkly/templates_static/game_manager.py]:
    an unknown [player_id] is an error. *)
Definition start_session (env : SessionDraw) (player_id : string)
    (difficulty : Difficulty) (surprise_mode : bool) : M DrawingSession :=
  found ← get_player player_id;
  player ← match found with
           | Some player => mret player
           | None => raise (ValueError "Jogador não encontrado")
           end;
  open_session env player difficulty surprise_mode.

End Inkly.

(** ** GameManager: completing a session *)

(** The classification result, a dict read with [.get(key, default)]:
    an absent key is [None]. *)
Record AiResult := {
  guesses : option (list string);
  ai_correct : option bool;
  confidence : option Z
}.

Record Breakdown := {
  base : Z;
  time_bonus : Z;
  confidence_bonus : Z
}.

Record Rewards := {
  reward_score : Z;
  reward_xp : Z;
  breakdown : Breakdown
}.

(** One entry of the returned ["achievements"] list:
    [{"id": aid, **ACHIEVEMENTS[aid]}]. *)
Record Unlocked := {
  unlocked_id : string;
  unlocked_info : Achievement
}.

(** The dict returned by [complete_session]. *)
Record Completion := {
  completed : DrawingSession;
  rewards : Rewards;
  unlocked : list Unlocked;
  level_up : bool;
  new_level : option Z
}.

(** Attribute assignment on a [DrawingSession]: the four result fields,
    then the score. *)
Definition set_result (dd : string) (gs : list string) (c : bool) (t : Q)
    (s : DrawingSession) : DrawingSession :=
  {| session_id := session_id s; player := player s; prompt := prompt s;
     started_at := started_at s; drawing_data := Some dd; ai_guesses := gs;
     correct := c; time_spent := t; score := score s |}.

Definition set_score (v : Z) (s : DrawingSession) : DrawingSession :=
  {| session_id := session_id s; player := player s; prompt := prompt s;
     started_at := started_at s; drawing_data := drawing_data s;
     ai_guesses := ai_guesses s; correct := correct s;
     time_spent := time_spent s; score := v |}.

(** The [unlocks] table of [_unlock_brushes], in source order. *)
Definition unlocks : list (Z * BrushType) :=
  [(3, NEON); (5, SPRAY); (7, MARKER); (10, SPARKLE)].

(** [_unlock_brushes]. *)
Definition _unlock_brushes (player : ref) : M unit :=
  for_each unlocks (λ '(lvl, brush),
    p ← deref player;
    if lvl <=? level p then assign player (unlock_brush brush) else mret tt).

(** [ACHIEVEMENTS[aid]]. *)
Definition achievement_info (aid : string) : M Achievement :=
  match assoc aid ACHIEVEMENTS with
  | Some a => mret a
  | None => raise (KeyError aid)
  end.

(** [[f(x) for x in xs]] with an [f] that may raise. *)
Fixpoint collect {A B} (xs : list A) (f : A → M B) : M (list B) :=
  match xs with
  | [] => mret []
  | x :: rest => y ← f x; ys ← collect rest f; mret (y :: ys)
  end.

(** [complete_session]; [now] is the value of [datetime.now()].  The
    local [session] is the session object: its attribute assignments are
    written to [self.sessions] when the score has been set, no statement
    in between being able to raise. *)
Definition complete_session (now : Z) (sid : string) (dd : string)
    (ai_result : AiResult) (t : Q) : M Completion :=
  found ← gets (λ gm, sessions gm !! sid);
  session ← match found with
            | Some session => mret session
            | None => raise (ValueError "Sessão não encontrada")
            end;
  let player := player session in
  let session := set_result dd (default [] (guesses ai_result))
                   (default false (ai_correct ai_result)) t session in
  let base_score := if correct session then 100 else 20 in
  let time_bonus :=
    Z.max 0 (py_int ((inject_Z (time_limit (prompt session)) - t) * 5)) in
  let confidence_bonus :=
    py_int (inject_Z (default 0 (confidence ai_result)) / 2) in
  let session := set_score (base_score + time_bonus + confidence_bonus) session in
  modify (λ gm, set_sessions (<[sid := session]> (sessions gm)) gm) ;;
  assign player (λ p, set_total_drawings (total_drawings p + 1) p) ;;
  assign player (set_last_played (Some now)) ;;
  (if correct session then
     assign player (λ p, set_correct_guesses (correct_guesses p + 1) p) ;;
     assign player (λ p, set_streak (streak p + 1) p)
   else
     assign player (set_streak 0)) ;;
  level_up ← invoke player (add_xp (score session));
  _unlock_brushes player ;;
  new_achievements ← invoke player (λ p, check_achievements p session);
  for_each new_achievements (λ achievement_id,
    achievement ← achievement_info achievement_id;
    invoke player (add_xp (ach_xp achievement)) ;; mret tt) ;;
  rows ← collect new_achievements (λ aid,
    info ← achievement_info aid;
    mret {| unlocked_id := aid; unlocked_info := info |});
  p ← deref player;
  mret {| completed := session;
          rewards := {| reward_score := score session;
                        reward_xp := score session;
                        breakdown := {| base := base_score;
                                        time_bonus := time_bonus;
                                        confidence_bonus := confidence_bonus |} |};
          unlocked := rows;
          level_up := level_up;
          new_level := if level_up then Some (level p) else None |}.

(** ** GameManager: rooms *)

(** [create_multiplayer_room]: the room id is the first 8 characters of a
    fresh uuid. *)
Definition create_multiplayer_room (uuid : string) (player_id : string) : M string :=
  let room_id := String.substring 0 8 uuid in
  modify (λ gm, set_multiplayer_rooms
                  (<[room_id := [player_id]]> (multiplayer_rooms gm)) gm) ;;
  mret room_id.

(** [join_multiplayer_room]. *)
Definition join_multiplayer_room (room_id player_id : string) : M bool :=
  room ← gets (λ gm, multiplayer_rooms gm !! room_id);
  match room with
  | Some members =>
      (if bool_decide (player_id ∈ members) then mret tt
       else modify (λ gm, set_multiplayer_rooms
                            (<[room_id := (members ++ [player_id])%list]>
                               (multiplayer_rooms gm)) gm)) ;;
      mret true
  | None => mret false
  end.

(** [get_room_players]: the players of a room, ids that resolve to no
    player being skipped. *)
Definition get_room_players (room_id : string) : M (list ref) :=
  gets (λ gm,
    let player_ids := default [] (multiplayer_rooms gm !! room_id) in
    omap (λ pid, assoc pid (players gm)) player_ids).

(** ** GameManager: the leaderboard *)

(** The sort key [(p.level, p.correct_guesses)] and the order of tuples. *)
Definition sort_key (p : Player) : Z * Z := (level p, correct_guesses p).

Definition key_lt (a b : Z * Z) : bool :=
  (a.1 <? b.1) || ((a.1 =? b.1) && (a.2 <? b.2)).

(** [sorted(xs, key=..., reverse=True)]: descending and stable (elements
    with equal keys keep their order), here by insertion from the right. *)
Fixpoint insert_desc {A} (key : A → Z * Z) (x : A) (l : list A) : list A :=
  match l with
  | [] => [x]
  | y :: l' => if key_lt (key x) (key y) then y :: insert_desc key x l' else x :: l
  end.

Definition sorted_desc {A} (key : A → Z * Z) (xs : list A) : list A :=
  foldr (insert_desc key) [] xs.

(** [xs[:limit]]: a negative [limit] counts from the end. *)
Definition slice_to {A} (limit : Z) (xs : list A) : list A :=
  if 0 <=? limit then take (Z.to_nat limit) xs
  else take (length xs - Z.to_nat (- limit)) xs.

Record Row := {
  rank : Z;
  row_name : string;
  row_level : Z;
  row_xp : Z;
  row_total_drawings : Z;
  accuracy : Q;
  row_streak : Z
}.

(** The accuracy expression of a leaderboard row. *)
Definition accuracy_of (p : Player) : Q :=
  round1 (if 0 <? total_drawings p
          then inject_Z (correct_guesses p) / inject_Z (total_drawings p) * 100
          else 0)%Q.

Definition row_of (i : nat) (p : Player) : Row :=
  {| rank := Z.of_nat i + 1; row_name := name p; row_level := level p;
     row_xp := xp p; row_total_drawings := total_drawings p;
     accuracy := accuracy_of p; row_streak := streak p |}.

(** The objects of [self.players.values()], each with its reference, in
    dict order. *)
Definition player_objects : M (list (ref * Player)) :=
  refs ← gets (λ gm, dict_values (players gm));
  collect refs (λ r, p ← deref r; mret (r, p)).

(** [sorted_players] of [get_leaderboard]. *)
Definition sorted_players : M (list (ref * Player)) :=
  objs ← player_objects;
  mret (sorted_desc (λ rp, sort_key rp.2) objs).

(** [get_leaderboard]. *)
Definition get_leaderboard (limit : Z) : M (list Row) :=
  ranked ← sorted_players;
  mret (imap (λ i rp, row_of i rp.2) (slice_to limit ranked)).

(** ** The net effect of [complete_session]

    The functions below compose, in source order, what the statements of
    [complete_session] do to the session object and to the player object;
    [complete_session_run] proves that the computation above has exactly
    this effect. *)

(** The session object once its result fields and its score are set. *)
Definition session_after (dd : string) (ai_result : AiResult) (t : Q)
    (s : DrawingSession) : DrawingSession :=
  let s := set_result dd (default [] (guesses ai_result))
             (default false (ai_correct ai_result)) t s in
  set_score ((if correct s then 100 else 20)
             + Z.max 0 (py_int ((inject_Z (time_limit (prompt s)) - t) * 5))
             + py_int (inject_Z (default 0 (confidence ai_result)) / 2)) s.

(** The player object after the statistics update. *)
Definition stats_after (now : Z) (c : bool) (p : Player) : Player :=
  let p := set_total_drawings (total_drawings p + 1) p in
  let p := set_last_played (Some now) p in
  if c then
    let p := set_correct_guesses (correct_guesses p + 1) p in
    set_streak (streak p + 1) p
  else set_streak 0 p.

(** The player object after [_unlock_brushes]. *)
Definition brushes_after (p : Player) : Player :=
  foldl (λ p '(lvl, brush), if lvl <=? level p then unlock_brush brush p else p)
        p unlocks.

(** The player object after the bonus grants of the listed achievements. *)
Definition grant (ids : list string) (p : Player) : Player :=
  foldl (λ p aid, (add_xp (default 0 (ach_xp <$> assoc aid ACHIEVEMENTS)) p).1)
        p ids.

(** The returned ["achievements"] list for the listed ids. *)
Definition rows_of (ids : list string) : list Unlocked :=
  omap (λ aid, (λ info, {| unlocked_id := aid; unlocked_info := info |})
                 <$> assoc aid ACHIEVEMENTS) ids.

(** The player object when [complete_session] returns. *)
Definition player_after (now : Z) (s' : DrawingSession) (p : Player) : Player :=
  let p := stats_after now (correct s') p in
  let p := (add_xp (score s') p).1 in
  let p := brushes_after p in
  let st := check_achievements p s' in
  grant st.2 st.1.

(** The ids returned by [check_achievements] inside [complete_session]. *)
Definition unlocked_ids (now : Z) (s' : DrawingSession) (p : Player) : list string :=
  let p := stats_after now (correct s') p in
  let p := (add_xp (score s') p).1 in
  let p := brushes_after p in
  (check_achievements p s').2.

(** ** The rules of [check_achievements], in closed form *)

(** An id that is a key of the [ACHIEVEMENTS] table. *)
Definition known (aid : string) : Prop := is_Some (assoc aid ACHIEVEMENTS).

(** What one rule contributes to the returned list, given the ids the
    player held before the call. *)
Definition fired (cond : bool) (aid : string) (old : list string) : list string :=
  if cond && negb (bool_decide (aid ∈ old)) then [aid] else [].

(** The list [check_achievements] returns, rule by rule;
    [check_achievements_eq] proves the equality. *)
Definition newly_unlocked (p : Player) (s : DrawingSession) : list string :=
  let old := achievements p in
  (fired (total_drawings p =? 1) "first_draw" old ++
   fired (Qltb (time_spent s) 5 && correct s) "speed_demon" old ++
   fired (10 <=? streak p) "perfectionist" old ++
   fired (10 <=? level p) "level_10" old ++
   fired (5 <=? total_drawings p - correct_guesses p) "abstract_master" old)%list.

(** ** Well-formed and reachable states *)

(** Every reference held by a dict designates an object of the store. *)
Definition wf (gm : GameManager) : Prop :=
  (∀ k r, (k, r) ∈ players gm → (r < length (store gm))%nat) ∧
  (∀ sid s, sessions gm !! sid = Some s → (player s < length (store gm))%nat).


(** One call of a mutating operation of the manager.  [uuid.uuid4()] is
    taken to return an id that is not yet a key of [players]. *)
Inductive step (gm : GameManager) : GameManager → Prop :=
| step_create_player uuid now nm :
    assoc uuid (players gm) = None →
    step gm (create_player uuid now nm gm).1
| step_start_session env player_id hint surprise :
    assoc (uuid_player env) (players gm) = None →
    step gm (start_session env player_id hint surprise gm).1
| step_start_session_strict env player_id hint surprise :
    step gm (Inkly.start_session env player_id hint surprise gm).1
| step_complete_session now sid dd ai_result t :
    step gm (complete_session now sid dd ai_result t gm).1
| step_create_room uuid player_id :
    step gm (create_multiplayer_room uuid player_id gm).1
| step_join_room room_id player_id :
    step gm (join_multiplayer_room room_id player_id gm).1.

(** The states a manager can be in, starting from [GameManager()]. *)
Definition reachable (gm : GameManager) : Prop := rtc step init gm.

(** The manager with the object at [r] replaced and the sessions dict
    replaced: the shape of every state met while a session completes. *)
Definition upd (r : ref) (p : Player) (ss : gmap string DrawingSession)
    (gm : GameManager) : GameManager :=
  {| store := <[r := p]> (store gm); players := players gm; sessions := ss;
     multiplayer_rooms := multiplayer_rooms gm |}.

(** The manager after [start_session] has created the player it did not
    find: one new object, stored under the fresh uuid and under the
    caller's id. *)
Definition provisioned (env : SessionDraw) (player_id : string)
    (gm : GameManager) : GameManager :=
  {| store := store gm ++
       [set_id player_id
          (new_Player (uuid_player env) ("Player_" +:+ player_id)
             (Some (now_player env)))];
     players := dict_set player_id (length (store gm))
                  (dict_set (uuid_player env) (length (store gm)) (players gm));
     sessions := sessions gm;
     multiplayer_rooms := multiplayer_rooms gm |}.

(** ** The leaderboard in closed form *)



(** The objects behind the values of [players], in dict order. *)
Definition objects_of (gm : GameManager) : list (ref * Player) :=
  omap (λ r, (λ p, (r, p)) <$> store gm !! r) (dict_values (players gm)).


(** ** Notions used by the further properties *)

(** The xp a player has earned in total: the xp at hand plus the
    thresholds [100, 200, ..., (level - 1) * 100] already paid. *)
Definition total_xp (p : Player) : Z := xp p + 50 * level p * (level p - 1).

(** The bonus of an achievement id, 0 for an id outside the table. *)
Definition bonus_of (aid : string) : Z :=
  default 0 (ach_xp <$> assoc aid ACHIEVEMENTS).

(** The five ids [check_achievements] can return. *)
Definition awardable : list string :=
  ["first_draw"; "speed_demon"; "perfectionist"; "level_10"; "abstract_master"].

(** The brushes of a player are consistent: no duplicates, the default
    brush is there, and no brush is held below its level threshold. *)
Definition brushes_ok (p : Player) : Prop :=
  NoDup (brushes_unlocked p) ∧
  NORMAL ∈ brushes_unlocked p ∧
  ∀ lvl brush, (lvl, brush) ∈ unlocks → brush ∈ brushes_unlocked p → lvl ≤ level p.

(** The achievements of a player are consistent: no duplicates, and only
    ids that [check_achievements] awards. *)
Definition achievements_ok (p : Player) : Prop :=
  NoDup (achievements p) ∧ ∀ aid, aid ∈ achievements p → aid ∈ awardable.

(** The counters of a player are consistent. *)
Definition counters_ok (p : Player) : Prop :=
  1 ≤ level p ∧ 0 ≤ streak p ∧ streak p ≤ correct_guesses p ∧
  correct_guesses p ≤ total_drawings p.

(** A player object at a later time: nothing is lost. *)
Definition grows (p p' : Player) : Prop :=
  id p' = id p ∧ name p' = name p ∧
  level p ≤ level p' ∧
  total_drawings p ≤ total_drawings p' ∧
  correct_guesses p ≤ correct_guesses p' ∧
  brushes_unlocked p `prefix_of` brushes_unlocked p' ∧
  achievements p `prefix_of` achievements p'.

(** ** Sample states *)

(** Draws for a session: no surprise (coin 0), first entry of each pool. *)
Definition demo_env (session_uuid : string) : SessionDraw :=
  {| uuid_player := "uuid-p"; now_player := 1; pick_difficulty := 0;
     prompt_draw := {| coin := 0; pick_text := 0 |};
     uuid_session := session_uuid; now_session := 2 |}.

(** A manager with one player, created by [create_player], and one open
    session of that player, ["s-1"], on an EASY prompt (time limit 20). *)
Definition demo_gm : GameManager :=
  let gm := (create_player "alice" 0 "Alice" init).1 in
  (start_session (demo_env "s-1") "alice" HARD true gm).1.

Definition demo_player : Player := new_Player "alice" "Alice" (Some 0).

Definition demo_session : DrawingSession :=
  new_DrawingSession "s-1" 0%nat
    {| text := "cachorro"; difficulty := EASY; time_limit := 20 |} 2.

(** The sample manager after its player has opened a room; the room id
    is the first 8 characters of the uuid. *)
Definition demo_room_gm : GameManager :=
  (create_multiplayer_room "0123456789ab" "alice" demo_gm).1.

(** A classification result: correct or not, with a confidence. *)
Definition demo_ai (c : bool) (conf : Z) : AiResult :=
  {| guesses := Some ["cachorro"]; ai_correct := Some c; confidence := Some conf |}.

(** * Properties *)

(** A decidable closed proposition, settled by evaluation. *)
Ltac by_compute := apply (bool_decide_unpack _); vm_compute; exact I.

(** ** Arithmetic of the score formulas *)





Lemma py_int_inject_Z (z : Z) : py_int (inject_Z z) = z.
Proof. unfold py_int; simpl. apply Z.quot_1_r. Qed.

Lemma py_int_half (c : Z) : py_int (inject_Z c / 2) = c ÷ 2.
Proof. unfold py_int; simpl. by rewrite Z.mul_1_r. Qed.

Lemma py_int_half_floor (c : Z) : 0 ≤ c → py_int (inject_Z c / 2) = c / 2.
Proof. intros Hc. rewrite py_int_half. apply Z.quot_div_nonneg; lia. Qed.



(** ** Leveling: [Player.add_xp] *)

Lemma add_xp_level_up (p : Player) (points : Z) :
  level p * 100 ≤ xp p + points →
  add_xp points p =
    (set_xp (xp p + points - level p * 100) (set_level (level p + 1) p), true).
Proof.
  intros H. unfold add_xp; simpl.
  destruct (Z.leb_spec (level p * 100) (xp p + points)); [done | lia].
Qed.

Lemma add_xp_stay (p : Player) (points : Z) :
  xp p + points < level p * 100 →
  add_xp points p = (set_xp (xp p + points) p, false).
Proof.
  intros H. unfold add_xp; simpl.
  destruct (Z.leb_spec (level p * 100) (xp p + points)); [lia | done].
Qed.

(** The fields [add_xp] leaves alone. *)
Lemma add_xp_frame (points : Z) (p : Player) :
  let q := (add_xp points p).1 in
  id q = id p ∧ name q = name p ∧ streak q = streak p ∧
  total_drawings q = total_drawings p ∧ correct_guesses q = correct_guesses p ∧
  brushes_unlocked q = brushes_unlocked p ∧ achievements q = achievements p ∧
  last_played q = last_played p.
Proof. unfold add_xp; simpl. by destruct (_ <=? _). Qed.

(** C4. [add_xp(points)] adds [points] to [xp] and tests the threshold
    [level * 100] exactly once: when it is reached the level goes up by
    one, the old threshold is subtracted from [xp] and [True] is returned;
    otherwise [False] is returned and only [xp] has changed.  Hence, for a
    player with [0 <= xp < level * 100], [add_xp(level * 100)] levels up
    exactly once and leaves [0 <= xp < level * 100] at the new level. *)
Theorem add_xp_checks_threshold_once (p : Player) (points : Z) :
  add_xp points p =
    (if level p * 100 <=? xp p + points
     then ({| id := id p; name := name p; level := level p + 1;
              xp := xp p + points - level p * 100; streak := streak p;
              total_drawings := total_drawings p;
              correct_guesses := correct_guesses p;
              brushes_unlocked := brushes_unlocked p;
              achievements := achievements p; last_played := last_played p |},
           true)
     else ({| id := id p; name := name p; level := level p;
              xp := xp p + points; streak := streak p;
              total_drawings := total_drawings p;
              correct_guesses := correct_guesses p;
              brushes_unlocked := brushes_unlocked p;
              achievements := achievements p; last_played := last_played p |},
           false))
  ∧ (0 ≤ xp p < level p * 100 →
     let after := add_xp (level p * 100) p in
     after.2 = true ∧ level after.1 = level p + 1 ∧
     0 ≤ xp after.1 < level after.1 * 100).
Proof.
  split.
  - destruct (Z.leb_spec (level p * 100) (xp p + points)).
    + by rewrite add_xp_level_up.
    + by rewrite add_xp_stay.
  - intros Hxp. simpl. rewrite add_xp_level_up by lia. simpl. lia.
Qed.

Lemma add_xp_checks_threshold_once_witness :
  let p := new_Player "p-1" "Ana" None in
  let after := add_xp (level p * 100) p in
  after.2 = true ∧ level after.1 = level p + 1 ∧
  0 ≤ xp after.1 < level after.1 * 100.
Proof.
  apply (proj2 (add_xp_checks_threshold_once (new_Player "p-1" "Ana" None) 0)).
  simpl. lia.
Defined.

(** C2, as the code has it.  [add_xp] tests the threshold once, so the
    bound [xp < level * 100] holds after a call exactly when the grant
    stays below the sum of the current threshold and the next one: for a
    player of level at least 1, [xp < level * 100] after [add_xp(points)]
    if and only if [xp + points < (2 * level + 1) * 100] before it. *)
Theorem add_xp_settles_iff (p : Player) (points : Z) :
  1 ≤ level p →
  let q := (add_xp points p).1 in
  xp q < level q * 100 ↔ xp p + points < (2 * level p + 1) * 100.
Proof.
  intros Hl. simpl.
  destruct (Z.leb_spec (level p * 100) (xp p + points)).
  - rewrite add_xp_level_up by done. simpl. lia.
  - rewrite add_xp_stay by done. simpl. lia.
Qed.

Lemma add_xp_settles_iff_witness :
  let p := new_Player "p-1" "Ana" None in
  let q := (add_xp 225 p).1 in
  xp q < level q * 100 ↔ xp p + 225 < (2 * level p + 1) * 100.
Proof.
  apply (add_xp_settles_iff (new_Player "p-1" "Ana" None) 225).
  simpl. lia.
Defined.

(** ** Prompt generation *)

Lemma random_choice_elem {A} (draw : nat) (seq : list A) (dflt : A) :
  seq ≠ [] → random_choice draw seq dflt ∈ seq.
Proof.
  intros Hne. unfold random_choice. apply list_elem_of_In, nth_In.
  apply Nat.mod_upper_bound. by destruct seq.
Qed.

Lemma random_choice_hits {A} (seq : list A) (dflt x : A) :
  x ∈ seq → ∃ draw, random_choice draw seq dflt = x.
Proof.
  intros [i Hi]%list_elem_of_lookup. exists i. unfold random_choice.
  rewrite Nat.mod_small by (by eapply lookup_lt_Some).
  by apply nth_lookup_Some.
Qed.

Lemma Qltb_lt (x y : Q) : Qltb x y = true ↔ (x < y)%Q.
Proof.
  unfold Qltb. rewrite negb_true_iff, <- not_true_iff_false, Qle_bool_iff.
  split; [apply Qnot_le_lt | apply Qlt_not_le].
Qed.

(** C9. [generate(difficulty, surprise)] takes the surprise branch exactly
    when the flag is set and the draw of [random.random()] exceeds 0.7
    (the draws in (0.7, 1), three tenths of [0, 1)); the prompt then has a
    text of the 9-entry surprise pool, difficulty MEDIUM and time limit 30,
    whatever difficulty was requested.  Otherwise the text is of the pool
    of the requested difficulty (13 easy, 12 medium, 10 hard entries), the
    difficulty is the requested one and the time limit is 20, 25 or 30.
    Every entry of the pool in force is returned for some draw. *)
Theorem generate_draws_from_pools (rnd : PromptDraw) (d : Difficulty) (surprise : bool) :
  (surprise_taken surprise rnd = true ↔ surprise = true ∧ (7 # 10 < coin rnd)%Q)
  ∧ (surprise_taken surprise rnd = true →
       text (generate rnd d surprise) ∈ SURPRISE_PROMPTS ∧
       difficulty (generate rnd d surprise) = MEDIUM ∧
       time_limit (generate rnd d surprise) = 30)
  ∧ (surprise_taken surprise rnd = false →
       text (generate rnd d surprise) ∈ pool_of d ∧
       difficulty (generate rnd d surprise) = d ∧
       time_limit (generate rnd d surprise) = limit_of d)
  ∧ (∀ txt, txt ∈ (if surprise_taken surprise rnd then SURPRISE_PROMPTS else pool_of d) →
       ∃ k, text (generate {| coin := coin rnd; pick_text := k |} d surprise) = txt)
  ∧ length SURPRISE_PROMPTS = 9%nat ∧ length EASY_PROMPTS = 13%nat
  ∧ length MEDIUM_PROMPTS = 12%nat ∧ length HARD_PROMPTS = 10%nat
  ∧ NoDup SURPRISE_PROMPTS ∧ NoDup EASY_PROMPTS
  ∧ NoDup MEDIUM_PROMPTS ∧ NoDup HARD_PROMPTS.
Proof.
  split_and!; try reflexivity; try by_compute.
  - unfold surprise_taken. rewrite andb_true_iff, Qltb_lt. naive_solver.
  - intros Ht. unfold generate. rewrite Ht. simpl. split; [|done].
    by apply random_choice_elem.
  - intros Ht. unfold generate. rewrite Ht.
    destruct d; simpl; (split; [by apply random_choice_elem | done]).
  - intros txt Htxt. unfold generate, surprise_taken in *. simpl.
    destruct (surprise && _); [|destruct d]; simpl in *;
      by apply random_choice_hits.
Qed.

Lemma generate_draws_from_pools_witness :
  let rnd := {| coin := 9 # 10; pick_text := 4 |} in
  text (generate rnd HARD true) ∈ SURPRISE_PROMPTS ∧
  difficulty (generate rnd HARD true) = MEDIUM ∧
  time_limit (generate rnd HARD true) = 30.
Proof.
  apply (proj1 (proj2 (generate_draws_from_pools
                         {| coin := 9 # 10; pick_text := 4 |} HARD true))).
  reflexivity.
Defined.

(** ** Running the manager's computations *)

Lemma run_bind {A B} (m : M A) (f : A → M B) (gm : GameManager) :
  (m ≫= f) gm =
    match m gm with
    | (gm', Ok a) => f a gm'
    | (gm', Raise e) => (gm', Raise e)
    end.
Proof. reflexivity. Qed.

Lemma upd_same (r : ref) (p : Player) (gm : GameManager) :
  store gm !! r = Some p → upd r p (sessions gm) gm = gm.
Proof.
  intros H. unfold upd. rewrite list_insert_id by done. by destruct gm.
Qed.

Lemma deref_upd r p ss gm :
  (r < length (store gm))%nat →
  deref r (upd r p ss gm) = (upd r p ss gm, Ok p).
Proof.
  intros H. unfold deref; simpl. by rewrite list_lookup_insert_eq.
Qed.

Lemma invoke_upd {A} r (method : Player → Player * A) p ss gm :
  (r < length (store gm))%nat →
  invoke r method (upd r p ss gm) = (upd r (method p).1 ss gm, Ok (method p).2).
Proof.
  intros H. unfold invoke. rewrite run_bind, deref_upd by done.
  unfold upd, modify, mbind, M_bind, mret, M_ret, set_store; simpl.
  by rewrite list_insert_insert_eq.
Qed.

Lemma assign_upd r f p ss gm :
  (r < length (store gm))%nat →
  assign r f (upd r p ss gm) = (upd r (f p) ss gm, Ok tt).
Proof. intros H. unfold assign. by rewrite invoke_upd. Qed.

Lemma unlock_loop_upd r ss gm (us : list (Z * BrushType)) p :
  (r < length (store gm))%nat →
  for_each us (λ '(lvl, brush),
    p ← deref r;
    if lvl <=? level p then assign r (unlock_brush brush) else mret tt)
    (upd r p ss gm)
  = (upd r (foldl (λ p '(lvl, brush),
                     if lvl <=? level p then unlock_brush brush p else p) p us)
         ss gm, Ok tt).
Proof.
  intros H. revert p. induction us as [|[lvl brush] us IH]; intros p; [done|].
  simpl. rewrite !run_bind, deref_upd by done.
  destruct (lvl <=? level p).
  - rewrite assign_upd by done. apply IH.
  - apply IH.
Qed.

Lemma unlock_brushes_upd r p ss gm :
  (r < length (store gm))%nat →
  _unlock_brushes r (upd r p ss gm) = (upd r (brushes_after p) ss gm, Ok tt).
Proof. apply unlock_loop_upd. Qed.

Lemma achievement_info_known aid gm :
  known aid →
  achievement_info aid gm
  = (gm, Ok (default {| ach_name := ""; ach_description := ""; ach_xp := 0 |}
                     (assoc aid ACHIEVEMENTS))).
Proof. intros [a Ha]. unfold achievement_info. by rewrite Ha. Qed.

Lemma grant_loop_upd r ss gm (ids : list string) p :
  (r < length (store gm))%nat →
  Forall known ids →
  for_each ids (λ achievement_id,
    achievement ← achievement_info achievement_id;
    invoke r (add_xp (ach_xp achievement)) ;; mret tt) (upd r p ss gm)
  = (upd r (grant ids p) ss gm, Ok tt).
Proof.
  intros H Hids. revert p. induction Hids as [|aid ids [a Ha] _ IH]; intros p; [done|].
  cbn [for_each]. rewrite !run_bind. unfold achievement_info at 1. rewrite Ha.
  unfold mret at 1, M_ret at 1. rewrite !run_bind, invoke_upd by done.
  unfold mret at 1, M_ret at 1. rewrite IH. unfold grant; cbn [foldl].
  by rewrite Ha.
Qed.

Lemma collect_rows (ids : list string) gm :
  Forall known ids →
  collect ids (λ aid,
    info ← achievement_info aid;
    mret {| unlocked_id := aid; unlocked_info := info |}) gm
  = (gm, Ok (rows_of ids)).
Proof.
  induction 1 as [|aid ids [a Ha] _ IH]; [done|].
  cbn [collect]. rewrite !run_bind. unfold achievement_info at 1. rewrite Ha.
  unfold mret at 1, M_ret at 1. unfold mret at 1, M_ret at 1.
  rewrite run_bind, IH. unfold rows_of; cbn [omap list_omap]. by rewrite Ha.
Qed.

Lemma set_achievements_same p : set_achievements (achievements p) p = p.
Proof. by destruct p. Qed.

Lemma fire_eq cond aid p new :
  fire cond aid (p, new)
  = (set_achievements (achievements p ++ fired cond aid (achievements p)) p,
     (new ++ fired cond aid (achievements p))%list).
Proof.
  unfold fire, fired, add_achievement.
  destruct cond; simpl; [destruct (bool_decide_reflect (aid ∈ achievements p))|];
    simpl; by rewrite ?app_nil_r, ?set_achievements_same.
Qed.

Lemma fired_elem cond aid old x :
  x ∈ fired cond aid old → cond = true ∧ x = aid ∧ (aid ∉ old).
Proof.
  unfold fired. destruct cond; simpl; [|by intros ?%elem_of_nil].
  destruct (bool_decide_reflect (aid ∈ old)); simpl; [by intros ?%elem_of_nil|].
  by intros ->%list_elem_of_singleton.
Qed.

Lemma fired_app cond aid old extra :
  aid ∉ extra → fired cond aid (old ++ extra) = fired cond aid old.
Proof.
  intros Hn. unfold fired.
  rewrite (bool_decide_ext (aid ∈ (old ++ extra)%list) (aid ∈ old)); [done|].
  rewrite elem_of_app. tauto.
Qed.

Lemma check_achievements_eq p s :
  check_achievements p s
  = (set_achievements (achievements p ++ newly_unlocked p s) p, newly_unlocked p s).
Proof.
  unfold check_achievements, newly_unlocked.
  rewrite !fire_eq. simpl.
  rewrite <- !(assoc_L (++)).
  rewrite !fired_app; [done | ..];
    rewrite ?elem_of_app; intros H;
    destruct_or?; by apply fired_elem in H as (_ & ? & _).
Qed.

Lemma newly_unlocked_known p s : Forall known (newly_unlocked p s).
Proof.
  apply Forall_forall. intros x. unfold newly_unlocked. rewrite !elem_of_app.
  intros H. destruct_or!;
    apply fired_elem in H as (_ & -> & _); by eexists.
Qed.


Lemma set_sessions_upd r p ss gm :
  store gm !! r = Some p → set_sessions ss gm = upd r p ss gm.
Proof. intros H. unfold upd, set_sessions. by rewrite list_insert_id. Qed.

Lemma complete_session_run now sid dd ai t gm s p :
  sessions gm !! sid = Some s →
  store gm !! player s = Some p →
  let s' := session_after dd ai t s in
  let leveled := add_xp (score s') (stats_after now (correct s') p) in
  let p' := player_after now s' p in
  complete_session now sid dd ai t gm
  = (upd (player s) p' (<[sid := s']> (sessions gm)) gm,
     Ok {| completed := s';
           rewards :=
             {| reward_score := score s'; reward_xp := score s';
                breakdown :=
                  {| base := if default false (ai_correct ai) then 100 else 20;
                     time_bonus :=
                       Z.max 0 (py_int ((inject_Z (time_limit (prompt s)) - t) * 5));
                     confidence_bonus :=
                       py_int (inject_Z (default 0 (confidence ai)) / 2) |} |};
           unlocked := rows_of (unlocked_ids now s' p);
           level_up := leveled.2;
           new_level := if leveled.2 then Some (level p') else None |}).
Proof.
  intros Hs Hp s' leveled p'.
  assert (Hr : (player s < length (store gm))%nat) by by eapply lookup_lt_Some.
  unfold complete_session.
  rewrite run_bind. unfold gets at 1. rewrite Hs.
  rewrite run_bind. unfold mret at 1, M_ret at 1. cbv beta zeta.
  fold (session_after dd ai t s). fold s'.
  rewrite run_bind. unfold modify at 1. rewrite (set_sessions_upd _ _ _ _ Hp).
  rewrite run_bind, assign_upd by done.
  rewrite run_bind, assign_upd by done.
  rewrite run_bind.
  assert (Hstats :
    (if correct s'
     then assign (player s) (λ p0, set_correct_guesses (correct_guesses p0 + 1) p0) ;;
          assign (player s) (λ p0, set_streak (streak p0 + 1) p0)
     else assign (player s) (set_streak 0))
      (upd (player s)
         (set_last_played (Some now) (set_total_drawings (total_drawings p + 1) p))
         (<[sid:=s']> (sessions gm)) gm)
    = (upd (player s) (stats_after now (correct s') p) (<[sid:=s']> (sessions gm)) gm,
       Ok tt)).
  { unfold stats_after. destruct (correct s').
    - by rewrite run_bind, !assign_upd.
    - by rewrite assign_upd. }
  rewrite Hstats. clear Hstats.
  rewrite run_bind, invoke_upd by done. fold leveled.
  rewrite run_bind, unlock_brushes_upd by done.
  rewrite run_bind, invoke_upd by done.
  rewrite run_bind, grant_loop_upd; [|done|].
  2:{ rewrite check_achievements_eq. apply newly_unlocked_known. }
  rewrite run_bind, collect_rows.
  2:{ rewrite check_achievements_eq. apply newly_unlocked_known. }
  rewrite run_bind, deref_upd by done.
  subst p' leveled. unfold player_after, unlocked_ids. cbv zeta.
  reflexivity.
Qed.


(** ** What the steps of a completion leave alone *)

Lemma unlock_brush_frame brush p :
  let q := unlock_brush brush p in
  id q = id p ∧ name q = name p ∧ level q = level p ∧ xp q = xp p ∧
  streak q = streak p ∧ total_drawings q = total_drawings p ∧
  correct_guesses q = correct_guesses p ∧ achievements q = achievements p ∧
  last_played q = last_played p.
Proof. unfold unlock_brush. by destruct (bool_decide _). Qed.

Lemma brushes_after_frame p :
  let q := brushes_after p in
  id q = id p ∧ name q = name p ∧ level q = level p ∧ xp q = xp p ∧
  streak q = streak p ∧ total_drawings q = total_drawings p ∧
  correct_guesses q = correct_guesses p ∧ achievements q = achievements p ∧
  last_played q = last_played p.
Proof.
  unfold brushes_after. generalize unlocks. intros us. revert p.
  induction us as [|[lvl brush] us IH]; intros p; [done|].
  cbn [foldl]. destruct (lvl <=? level p); [|apply IH].
  specialize (IH (unlock_brush brush p)). cbv zeta in IH.
  pose proof (unlock_brush_frame brush p) as Hu. cbv zeta in Hu.
  intuition congruence.
Qed.

Lemma grant_frame ids p :
  let q := grant ids p in
  id q = id p ∧ name q = name p ∧ streak q = streak p ∧
  total_drawings q = total_drawings p ∧ correct_guesses q = correct_guesses p ∧
  brushes_unlocked q = brushes_unlocked p ∧ achievements q = achievements p ∧
  last_played q = last_played p.
Proof.
  unfold grant. revert p. induction ids as [|aid ids IH]; intros p; [done|].
  cbn [foldl]. 
  specialize (IH (add_xp (default 0 (ach_xp <$> assoc aid ACHIEVEMENTS)) p).1).
  cbv zeta in IH.
  pose proof (add_xp_frame (default 0 (ach_xp <$> assoc aid ACHIEVEMENTS)) p) as Ha.
  cbv zeta in Ha. intuition congruence.
Qed.

(** The counters of the player when [complete_session] returns. *)
Lemma player_after_stats now s' p :
  let q := player_after now s' p in
  total_drawings q = total_drawings p + 1 ∧
  last_played q = Some now ∧
  correct_guesses q = (if correct s' then correct_guesses p + 1 else correct_guesses p) ∧
  streak q = (if correct s' then streak p + 1 else 0) ∧
  id q = id p ∧ name q = name p.
Proof.
  unfold player_after. cbv zeta. rewrite check_achievements_eq. cbn [fst snd].
  set (p1 := stats_after now (correct s') p).
  set (p2 := (add_xp (score s') p1).1).
  set (p3 := brushes_after p2).
  set (new := newly_unlocked p3 s').
  pose proof (grant_frame new (set_achievements (achievements p3 ++ new) p3)) as Hg.
  pose proof (brushes_after_frame p2) as Hb.
  pose proof (add_xp_frame (score s') p1) as Ha.
  cbv zeta in Hg, Hb, Ha. fold p2 in Ha. fold p3 in Hb. simpl in Hg.
  assert (H1 : total_drawings p1 = total_drawings p + 1 ∧
               last_played p1 = Some now ∧
               correct_guesses p1 = (if correct s' then correct_guesses p + 1
                                     else correct_guesses p) ∧
               streak p1 = (if correct s' then streak p + 1 else 0) ∧
               id p1 = id p ∧ name p1 = name p).
  { subst p1. unfold stats_after. by destruct (correct s'). }
  intuition congruence.
Qed.

(** ** Well-formedness *)

Lemma wf_init : wf init.
Proof. split; [by intros k r ?%elem_of_nil | by intros sid s ?]. Qed.

Lemma wf_upd r p ss gm :
  wf gm →
  (∀ sid s, ss !! sid = Some s → (player s < length (store gm))%nat) →
  wf (upd r p ss gm).
Proof.
  intros [Hp Hs] Hss. split; simpl; intros ??; rewrite length_insert; eauto.
Qed.

Lemma wf_deref gm sid s :
  wf gm → sessions gm !! sid = Some s → is_Some (store gm !! player s).
Proof. intros [_ Hs] H. apply lookup_lt_is_Some. eauto. Qed.

Lemma complete_session_wf now sid dd ai t gm :
  wf gm → wf (complete_session now sid dd ai t gm).1.
Proof.
  intros Hwf. destruct (sessions gm !! sid) as [s|] eqn:Hs.
  - destruct (wf_deref _ _ _ Hwf Hs) as [p Hp].
    rewrite (complete_session_run _ _ _ _ _ _ _ _ Hs Hp). cbn [fst].
    apply wf_upd; [done|]. intros sid' s'.
    rewrite lookup_insert. case_decide.
    + intros [= <-]. simpl. destruct Hwf as [_ Hss]. eauto.
    + destruct Hwf as [_ Hss]. eauto.
  - unfold complete_session. rewrite run_bind. unfold gets at 1. by rewrite Hs.
Qed.

(** ** Scoring *)




Lemma demo_gm_session : sessions demo_gm !! "s-1" = Some demo_session.
Proof. by vm_compute. Qed.

Lemma demo_gm_player : store demo_gm !! player demo_session = Some demo_player.
Proof. by vm_compute. Qed.



(** ** Player statistics *)

(** C7. A successful [complete_session] adds exactly 1 to
    [total_drawings] and sets [last_played] to the current time; on a
    correct result it adds 1 to [correct_guesses] and exactly 1 to
    [streak], otherwise it resets [streak] to 0 and leaves
    [correct_guesses] unchanged.  The state is arbitrary, so this holds
    after any sequence of completions. *)
Theorem complete_session_updates_stats now sid dd ai t gm s p :
  sessions gm !! sid = Some s →
  store gm !! player s = Some p →
  ∃ gm' res p',
    complete_session now sid dd ai t gm = (gm', Ok res) ∧
    store gm' !! player s = Some p' ∧
    correct (completed res) = default false (ai_correct ai) ∧
    total_drawings p' = total_drawings p + 1 ∧
    last_played p' = Some now ∧
    (if default false (ai_correct ai)
     then correct_guesses p' = correct_guesses p + 1 ∧ streak p' = streak p + 1
     else correct_guesses p' = correct_guesses p ∧ streak p' = 0).
Proof.
  intros Hs Hp.
  pose proof (complete_session_run now sid dd ai t gm s p Hs Hp) as Hrun.
  cbv zeta in Hrun.
  pose proof (player_after_stats now (session_after dd ai t s) p) as Hst.
  cbv zeta in Hst.
  destruct Hst as (Htd & Hlp & Hcg & Hst & _).
  eexists _, _, _. split; [exact Hrun|].
  split; [apply list_lookup_insert_eq; by eapply lookup_lt_Some|].
  split; [reflexivity|].
  split; [exact Htd|]. split; [exact Hlp|].
  revert Hcg Hst.
  change (correct (session_after dd ai t s)) with (default false (ai_correct ai)).
  by destruct (default false (ai_correct ai)).
Qed.

Lemma complete_session_updates_stats_witness :
  ∃ gm' res p',
    complete_session 5 "s-1" "img" (demo_ai false 10) 20 demo_gm = (gm', Ok res) ∧
    store gm' !! player demo_session = Some p' ∧
    correct (completed res) = false ∧
    total_drawings p' = total_drawings demo_player + 1 ∧
    last_played p' = Some 5 ∧
    correct_guesses p' = correct_guesses demo_player ∧ streak p' = 0.
Proof.
  destruct (complete_session_updates_stats 5 "s-1" "img" (demo_ai false 10) 20
              demo_gm demo_session demo_player demo_gm_session demo_gm_player)
    as (gm' & res & p' & H1 & H2 & H3 & H4 & H5 & H6 & H7).
  exists gm', res, p'. split_and!; assumption.
Defined.

(** C2 as stated fails: after an incorrect first drawing (score 25, plus
    50 for [first_draw]) the player holds 75 xp at level 1; a correct
    second drawing in 5 of 20 seconds with confidence 100 scores 225, and
    the single threshold test of [add_xp] leaves level 2 with 200 xp. *)
Lemma add_xp_settles_iff_counterexample :
  ∃ gm1 r1 gm2 s2 gm3 r3 p,
    complete_session 5 "s-1" "img" (demo_ai false 10) 20 demo_gm = (gm1, Ok r1) ∧
    start_session (demo_env "s-2") "alice" EASY false gm1 = (gm2, Ok s2) ∧
    complete_session 9 "s-2" "img" (demo_ai true 100) 5 gm2 = (gm3, Ok r3) ∧
    store gm3 !! 0%nat = Some p ∧
    level p = 2 ∧ xp p = 200 ∧ ¬ (xp p < level p * 100).
Proof.
  eexists _, _, _, _, _, _, _.
  split; [by vm_compute|]. split; [by vm_compute|]. split; [by vm_compute|].
  split; [by vm_compute|]. by vm_compute.
Qed.

(** ** The [players] dict *)

Lemma assoc_dict_set_eq {V} k (v : V) d : assoc k (dict_set k v d) = Some v.
Proof.
  induction d as [|[k' w] d IH]; simpl.
  - by rewrite String.eqb_refl.
  - destruct (String.eqb_spec k' k) as [->|Hne]; simpl.
    + by rewrite String.eqb_refl.
    + by destruct (String.eqb_spec k' k).
Qed.

Lemma assoc_dict_set_ne {V} k k' (v : V) d :
  k ≠ k' → assoc k' (dict_set k v d) = assoc k' d.
Proof.
  intros Hne. induction d as [|[k0 w] d IH]; simpl.
  - by destruct (String.eqb_spec k k').
  - destruct (String.eqb_spec k0 k) as [->|Hk0]; simpl.
    + by destruct (String.eqb_spec k k').
    + by rewrite IH.
Qed.

Lemma elem_of_dict_set {V} k (v : V) d k' v' :
  (k', v') ∈ dict_set k v d → (k', v') ∈ d ∨ (k' = k ∧ v' = v).
Proof.
  induction d as [|[k0 w] d IH]; simpl.
  - intros [= -> ->]%list_elem_of_singleton. by right.
  - destruct (String.eqb_spec k0 k) as [->|Hk0]; rewrite !elem_of_cons.
    + intros [[= -> ->]|?]; [by right | by left; right].
    + intros [?|[?|?]%IH]; [by left; left | by left; right | by right].
Qed.

Lemma dict_set_fresh {V} k (v : V) d :
  assoc k d = None → dict_set k v d = (d ++ [(k, v)])%list.
Proof.
  induction d as [|[k0 w] d IH]; simpl; [done|].
  destruct (String.eqb_spec k0 k); [done|]. intros ?. by rewrite IH.
Qed.

Lemma assoc_elem_of {V} k (v : V) d : assoc k d = Some v → (k, v) ∈ d.
Proof.
  induction d as [|[k0 w] d IH]; simpl; [done|].
  destruct (String.eqb_spec k0 k) as [->|?].
  - intros [= ->]. apply list_elem_of_here.
  - intros ?. by apply list_elem_of_further, IH.
Qed.

(** ** Creating players and starting sessions *)

Lemma create_player_run uuid now nm gm :
  create_player uuid now nm gm
  = ({| store := store gm ++ [new_Player uuid nm (Some now)];
        players := dict_set uuid (length (store gm)) (players gm);
        sessions := sessions gm;
        multiplayer_rooms := multiplayer_rooms gm |},
     Ok (length (store gm))).
Proof. reflexivity. Qed.

(** The state after a session has been opened for the player at [r]. *)
Lemma open_session_run env r hint surprise gm p :
  store gm !! r = Some p →
  open_session env r hint surprise gm
  = (set_sessions
       (<[uuid_session env :=
            new_DrawingSession (uuid_session env) r
              (generate (prompt_draw env)
                 (adjust_difficulty (level p) (pick_difficulty env)) surprise)
              (now_session env)]> (sessions gm)) gm,
     Ok (new_DrawingSession (uuid_session env) r
           (generate (prompt_draw env)
              (adjust_difficulty (level p) (pick_difficulty env)) surprise)
           (now_session env))).
Proof.
  intros Hp. unfold open_session. rewrite run_bind. unfold deref. by rewrite Hp.
Qed.

(** [start_session] for a known player. *)
Lemma start_session_known env player_id hint surprise gm r p :
  assoc player_id (players gm) = Some r →
  store gm !! r = Some p →
  start_session env player_id hint surprise gm
  = open_session env r hint surprise gm.
Proof.
  intros Hr Hp. unfold start_session. rewrite run_bind.
  unfold get_player, gets at 1. rewrite Hr. by rewrite run_bind.
Qed.

Lemma start_session_strict_known env player_id hint surprise gm r :
  assoc player_id (players gm) = Some r →
  Inkly.start_session env player_id hint surprise gm
  = open_session env r hint surprise gm.
Proof.
  intros Hr. unfold Inkly.start_session. rewrite run_bind.
  unfold get_player, gets at 1. rewrite Hr. by rewrite run_bind.
Qed.

Lemma start_session_strict_unknown env player_id hint surprise gm :
  assoc player_id (players gm) = None →
  Inkly.start_session env player_id hint surprise gm
  = (gm, Raise (ValueError "Jogador não encontrado")).
Proof.
  intros Hr. unfold Inkly.start_session. rewrite run_bind.
  unfold get_player, gets at 1. rewrite Hr. by rewrite run_bind.
Qed.

(** [start_session] for an unknown player, in the auto-creating variant. *)
Lemma start_session_unknown env player_id hint surprise gm :
  assoc player_id (players gm) = None →
  start_session env player_id hint surprise gm
  = open_session env (length (store gm)) hint surprise
      (provisioned env player_id gm).
Proof.
  intros Hr. unfold start_session. rewrite run_bind.
  unfold get_player, gets at 1. rewrite Hr.
  rewrite !run_bind, create_player_run.
  unfold assign, invoke. rewrite !run_bind. unfold deref at 1. cbn [store].
  rewrite lookup_app_r, Nat.sub_diag by done. cbn [lookup list_lookup].
  rewrite run_bind. unfold modify at 1. cbn [fst snd set_store store].
  rewrite insert_app_r_alt, Nat.sub_diag by done. cbn [insert list_insert].
  unfold mret at 1, M_ret at 1.
  rewrite run_bind. unfold modify at 1. unfold mret at 1, M_ret at 1.
  reflexivity.
Qed.

(** ** Well-formedness is preserved *)

Lemma create_player_wf uuid now nm gm : wf gm → wf (create_player uuid now nm gm).1.
Proof.
  intros [Hp Hs]. rewrite create_player_run. split; simpl.
  - intros k r [Hin|[_ ->]]%elem_of_dict_set; rewrite length_app; simpl;
      [apply Hp in Hin|]; lia.
  - intros sid s Hin. apply Hs in Hin. rewrite length_app. lia.
Qed.

Lemma provisioned_wf env player_id gm : wf gm → wf (provisioned env player_id gm).
Proof.
  intros [Hp Hs]. split; simpl.
  - intros k r [[Hin|[_ ->]]%elem_of_dict_set|[_ ->]]%elem_of_dict_set;
      rewrite length_app; simpl; [apply Hp in Hin| |]; lia.
  - intros sid s Hin. apply Hs in Hin. rewrite length_app. lia.
Qed.

Lemma open_session_wf env r hint surprise gm :
  wf gm → wf (open_session env r hint surprise gm).1.
Proof.
  intros Hwf. destruct (store gm !! r) as [p|] eqn:Hp.
  - rewrite (open_session_run _ _ _ _ _ _ Hp). destruct Hwf as [Hpl Hs].
    split; simpl; [done|]. intros sid s. rewrite lookup_insert.
    case_decide; [|by apply Hs]. intros [= <-]. simpl. by eapply lookup_lt_Some.
  - unfold open_session. rewrite run_bind. unfold deref. by rewrite Hp.
Qed.

Lemma start_session_wf env player_id hint surprise gm :
  wf gm → wf (start_session env player_id hint surprise gm).1.
Proof.
  intros Hwf. destruct (assoc player_id (players gm)) as [r|] eqn:Hr.
  - assert (is_Some (store gm !! r)) as [p Hp].
    { apply lookup_lt_is_Some. destruct Hwf as [Hpl _].
      eapply Hpl. by apply assoc_elem_of. }
    rewrite (start_session_known _ _ _ _ _ _ _ Hr Hp). by apply open_session_wf.
  - rewrite (start_session_unknown _ _ _ _ _ Hr).
    by apply open_session_wf, provisioned_wf.
Qed.

Lemma start_session_strict_wf env player_id hint surprise gm :
  wf gm → wf (Inkly.start_session env player_id hint surprise gm).1.
Proof.
  intros Hwf. destruct (assoc player_id (players gm)) as [r|] eqn:Hr.
  - rewrite (start_session_strict_known _ _ _ _ _ _ Hr). by apply open_session_wf.
  - by rewrite (start_session_strict_unknown _ _ _ _ _ Hr).
Qed.

Lemma create_room_wf uuid player_id gm :
  wf gm → wf (create_multiplayer_room uuid player_id gm).1.
Proof. by intros [??]. Qed.

Lemma join_room_wf room_id player_id gm :
  wf gm → wf (join_multiplayer_room room_id player_id gm).1.
Proof.
  intros [??]. unfold join_multiplayer_room. rewrite run_bind. unfold gets at 1.
  destruct (multiplayer_rooms gm !! room_id); [|done].
  rewrite run_bind. by destruct (bool_decide _).
Qed.

Lemma step_wf gm gm' : step gm gm' → wf gm → wf gm'.
Proof.
  intros [] Hwf;
    eauto using create_player_wf, start_session_wf, start_session_strict_wf,
      complete_session_wf, create_room_wf, join_room_wf.
Qed.

Lemma steps_wf gm gm' : rtc step gm gm' → wf gm → wf gm'.
Proof. induction 1; eauto using step_wf. Qed.

Lemma reachable_wf gm : reachable gm → wf gm.
Proof. intros H. eapply steps_wf; [exact H | apply wf_init]. Qed.

(** ** Unknown and already completed sessions *)


Lemma demo_gm_wf : wf demo_gm.
Proof. apply start_session_wf, create_player_wf, wf_init. Qed.



(** ** Achievements *)

Lemma elem_of_fired cond aid old x :
  x ∈ fired cond aid old ↔ cond = true ∧ x = aid ∧ (aid ∉ old).
Proof.
  split; [apply fired_elem|]. intros (-> & -> & Hn). unfold fired.
  rewrite bool_decide_eq_false_2 by done. simpl. apply list_elem_of_here.
Qed.

Lemma newly_unlocked_NoDup p s : NoDup (newly_unlocked p s).
Proof.
  unfold newly_unlocked, fired.
  repeat match goal with
         | |- context [if ?c && negb ?d then _ else _] => destruct (c && negb d)
         end; by_compute.
Qed.

Lemma rows_of_ids ids : Forall known ids → unlocked_id <$> rows_of ids = ids.
Proof.
  induction 1 as [|aid ids [a Ha] _ IH]; [done|].
  unfold rows_of in *. cbn [omap list_omap]. rewrite Ha.
  cbn [fmap option_fmap option_map]. rewrite fmap_cons. by f_equal.
Qed.

Lemma rows_of_info ids u :
  u ∈ rows_of ids → assoc (unlocked_id u) ACHIEVEMENTS = Some (unlocked_info u).
Proof.
  unfold rows_of. rewrite list_elem_of_omap. intros (aid & _ & Hu).
  destruct (assoc aid ACHIEVEMENTS) as [a|] eqn:Ha; [|done].
  simpl in Hu. by injection Hu as <-.
Qed.

Lemma grant_unfold ids p :
  grant ids p
  = foldl (λ acc aid,
             (add_xp (default 0 (ach_xp <$> assoc aid ACHIEVEMENTS)) acc).1) p ids.
Proof. reflexivity. Qed.

Lemma stats_after_total_drawings now c p :
  total_drawings (stats_after now c p) = total_drawings p + 1.
Proof. unfold stats_after. by destruct c. Qed.

(** What [complete_session] does with the achievements: the player the
    rules are checked on, the ids returned, the bonus grants. *)
Lemma complete_session_unlocks now sid dd ai t gm s p :
  sessions gm !! sid = Some s →
  store gm !! player s = Some p →
  let s' := session_after dd ai t s in
  let q' := brushes_after (add_xp (score s') (stats_after now (correct s') p)).1 in
  total_drawings q' = total_drawings p + 1 ∧
  ∃ gm' res,
    complete_session now sid dd ai t gm = (gm', Ok res) ∧
    unlocked_id <$> unlocked res = (check_achievements q' s').2 ∧
    (∀ u, u ∈ unlocked res →
       assoc (unlocked_id u) ACHIEVEMENTS = Some (unlocked_info u)) ∧
    store gm' !! player s
    = Some (foldl (λ acc aid,
                     (add_xp (default 0 (ach_xp <$> assoc aid ACHIEVEMENTS)) acc).1)
                  (check_achievements q' s').1 (check_achievements q' s').2).
Proof.
  intros Hs Hp s' q'.
  assert (Hr : (player s < length (store gm))%nat) by by eapply lookup_lt_Some.
  pose proof (complete_session_run now sid dd ai t gm s p Hs Hp) as Hrun.
  cbv zeta in Hrun. fold s' in Hrun.
  assert (Hpa : player_after now s' p
                = grant (check_achievements q' s').2 (check_achievements q' s').1)
    by reflexivity.
  assert (Hids : unlocked_ids now s' p = (check_achievements q' s').2)
    by reflexivity.
  rewrite Hpa, Hids, grant_unfold in Hrun. clear Hpa Hids.
  assert (Hk : Forall known (check_achievements q' s').2).
  { rewrite check_achievements_eq. apply newly_unlocked_known. }
  assert (Htd : total_drawings q' = total_drawings p + 1).
  { subst q'.
    destruct (brushes_after_frame
                (add_xp (score s') (stats_after now (correct s') p)).1)
      as (_ & _ & _ & _ & _ & -> & _).
    destruct (add_xp_frame (score s') (stats_after now (correct s') p))
      as (_ & _ & _ & -> & _).
    apply stats_after_total_drawings. }
  clearbody q' s'.
  split; [exact Htd|].
  eexists _, _. split; [exact Hrun|].
  split; [exact (rows_of_ids _ Hk)|].
  split; [exact (rows_of_info _)|].
  exact (list_lookup_insert_eq _ _ _ Hr).
Qed.

(** C5. [check_achievements(player, session)] returns exactly the ids
    among first_draw, speed_demon, perfectionist, level_10 and
    abstract_master whose condition holds on the player and session it is
    given and that the player does not hold yet, each once, and records
    them on the player; night_owl is never returned.  [complete_session]
    calls it once the statistics, the score xp and the brushes have been
    applied, returns the unlocked ids with their table entries, and grants
    the bonus of each (50, 100, 200, 500, 150) by one [add_xp] call per
    id, in order. *)
Theorem achievements_checked_and_rewarded (q : Player) (sess : DrawingSession)
    now sid dd ai t gm s p :
  sessions gm !! sid = Some s →
  store gm !! player s = Some p →
  let new := (check_achievements q sess).2 in
  (∀ aid, aid ∈ new ↔
     (aid ∉ achievements q) ∧
     ((aid = "first_draw" ∧ total_drawings q = 1) ∨
      (aid = "speed_demon" ∧ Qlt (time_spent sess) 5 ∧ correct sess = true) ∨
      (aid = "perfectionist" ∧ 10 ≤ streak q) ∨
      (aid = "level_10" ∧ 10 ≤ level q) ∨
      (aid = "abstract_master" ∧ 5 ≤ total_drawings q - correct_guesses q)))
  ∧ NoDup new
  ∧ ("night_owl" ∉ new)
  ∧ (check_achievements q sess).1 = set_achievements (achievements q ++ new) q
  ∧ ach_xp <$> assoc "first_draw" ACHIEVEMENTS = Some 50
  ∧ ach_xp <$> assoc "speed_demon" ACHIEVEMENTS = Some 100
  ∧ ach_xp <$> assoc "perfectionist" ACHIEVEMENTS = Some 200
  ∧ ach_xp <$> assoc "level_10" ACHIEVEMENTS = Some 500
  ∧ ach_xp <$> assoc "abstract_master" ACHIEVEMENTS = Some 150
  ∧ (let s' := session_after dd ai t s in
     let q' := brushes_after (add_xp (score s') (stats_after now (correct s') p)).1 in
     total_drawings q' = total_drawings p + 1 ∧
     ∃ gm' res,
       complete_session now sid dd ai t gm = (gm', Ok res) ∧
       unlocked_id <$> unlocked res = (check_achievements q' s').2 ∧
       (∀ u, u ∈ unlocked res →
          assoc (unlocked_id u) ACHIEVEMENTS = Some (unlocked_info u)) ∧
       store gm' !! player s
       = Some (foldl (λ acc aid,
                        (add_xp (default 0 (ach_xp <$> assoc aid ACHIEVEMENTS)) acc).1)
                     (check_achievements q' s').1 (check_achievements q' s').2)).
Proof.
  intros Hs Hp new.
  assert (Hiff : ∀ aid, aid ∈ new ↔
     (aid ∉ achievements q) ∧
     ((aid = "first_draw" ∧ total_drawings q = 1) ∨
      (aid = "speed_demon" ∧ Qlt (time_spent sess) 5 ∧ correct sess = true) ∨
      (aid = "perfectionist" ∧ 10 ≤ streak q) ∨
      (aid = "level_10" ∧ 10 ≤ level q) ∨
      (aid = "abstract_master" ∧ 5 ≤ total_drawings q - correct_guesses q))).
  { intros aid. subst new. rewrite check_achievements_eq. cbn [snd].
    unfold newly_unlocked. rewrite !elem_of_app, !elem_of_fired.
    rewrite Z.eqb_eq, !Z.leb_le, andb_true_iff, Qltb_lt.
    naive_solver. }
  split_and!; try reflexivity.
  - exact Hiff.
  - subst new. rewrite check_achievements_eq. apply newly_unlocked_NoDup.
  - intros (_ & H)%Hiff. destruct_or!; by destruct H.
  - subst new. by rewrite check_achievements_eq.
  - exact (complete_session_unlocks now sid dd ai t gm s p Hs Hp).
Qed.

Lemma achievements_checked_and_rewarded_witness :
  ∃ gm' res,
    complete_session 5 "s-1" "img" (demo_ai true 80) 3 demo_gm = (gm', Ok res) ∧
    unlocked_id <$> unlocked res = ["first_draw"; "speed_demon"] ∧
    ∃ p', store gm' !! 0%nat = Some p' ∧ level p' = 3 ∧ xp p' = 75.
Proof.
  destruct (achievements_checked_and_rewarded demo_player demo_session
              5 "s-1" "img" (demo_ai true 80) 3 demo_gm demo_session demo_player
              demo_gm_session demo_gm_player)
    as (_ & _ & _ & _ & _ & _ & _ & _ & _ & _ & gm' & res & Hrun & Hids & _ & Hst).
  exists gm', res. split; [exact Hrun|]. split; [exact Hids|].
  eexists. split; [exact Hst|]. by vm_compute.
Defined.

(** ** Difficulty selection *)

Lemma adjust_difficulty_cases lvl pick :
  (lvl < 3 → adjust_difficulty lvl pick = EASY) ∧
  (3 ≤ lvl ≤ 6 → adjust_difficulty lvl pick = MEDIUM) ∧
  (7 ≤ lvl →
     (adjust_difficulty lvl pick = MEDIUM ∨ adjust_difficulty lvl pick = HARD) ∧
     adjust_difficulty lvl pick ≠ EASY).
Proof.
  unfold adjust_difficulty.
  destruct (Z.ltb_spec lvl 3), (Z.ltb_spec lvl 7); split_and!; try lia; try done.
  intros _. unfold random_choice. simpl length.
  destruct (pick mod 2)%nat as [|[|n]] eqn:Hm; simpl; [naive_solver..|].
  pose proof (Nat.mod_upper_bound pick 2). lia.
Qed.

(** C6. [start_session] never reads the caller's difficulty hint: the
    prompt is generated for the difficulty computed from the level of the
    session's player, which is EASY below level 3, MEDIUM for levels 3 to
    6, and for level 7 and above the outcome of a random choice that is
    MEDIUM or HARD (both possible), never EASY.  This holds for both
    variants; in the auto-creating one the call always returns a session,
    and a player created on the spot has level 1. *)
Theorem start_session_difficulty env player_id hint hint' surprise gm :
  wf gm →
  start_session env player_id hint surprise gm
    = start_session env player_id hint' surprise gm
  ∧ Inkly.start_session env player_id hint surprise gm
    = Inkly.start_session env player_id hint' surprise gm
  ∧ (∃ gm' session p,
       start_session env player_id hint surprise gm = (gm', Ok session) ∧
       store gm' !! player session = Some p ∧
       prompt session
       = generate (prompt_draw env)
           (adjust_difficulty (level p) (pick_difficulty env)) surprise ∧
       (assoc player_id (players gm) = None → level p = 1))
  ∧ (∀ r, assoc player_id (players gm) = Some r →
       ∃ gm' session p,
         Inkly.start_session env player_id hint surprise gm = (gm', Ok session) ∧
         player session = r ∧
         store gm' !! r = Some p ∧
         prompt session
         = generate (prompt_draw env)
             (adjust_difficulty (level p) (pick_difficulty env)) surprise)
  ∧ (∀ lvl pick,
       (lvl < 3 → adjust_difficulty lvl pick = EASY) ∧
       (3 ≤ lvl ≤ 6 → adjust_difficulty lvl pick = MEDIUM) ∧
       (7 ≤ lvl →
          (adjust_difficulty lvl pick = MEDIUM ∨ adjust_difficulty lvl pick = HARD) ∧
          adjust_difficulty lvl pick ≠ EASY))
  ∧ (∀ lvl, 7 ≤ lvl →
       adjust_difficulty lvl 0 = MEDIUM ∧ adjust_difficulty lvl 1 = HARD).
Proof.
  intros Hwf. split_and!.
  - reflexivity.
  - reflexivity.
  - destruct (assoc player_id (players gm)) as [r|] eqn:Hr.
    + assert (is_Some (store gm !! r)) as [p Hp].
      { apply lookup_lt_is_Some. destruct Hwf as [Hpl _].
        eapply Hpl. by apply assoc_elem_of. }
      rewrite (start_session_known _ _ _ _ _ _ _ Hr Hp).
      rewrite (open_session_run _ _ _ _ _ _ Hp).
      eexists _, _, p. split; [reflexivity|]. split; [exact Hp|]. by split.
    + rewrite (start_session_unknown _ _ _ _ _ Hr).
      assert (Hp : store (provisioned env player_id gm) !! length (store gm)
                   = Some (set_id player_id
                             (new_Player (uuid_player env) ("Player_" +:+ player_id)
                                (Some (now_player env))))).
      { simpl. by rewrite lookup_app_r, Nat.sub_diag. }
      rewrite (open_session_run _ _ _ _ _ _ Hp).
      eexists _, _, _. split; [reflexivity|]. split; [exact Hp|]. by split.
  - intros r Hr.
    assert (is_Some (store gm !! r)) as [p Hp].
    { apply lookup_lt_is_Some. destruct Hwf as [Hpl _].
      eapply Hpl. by apply assoc_elem_of. }
    rewrite (start_session_strict_known _ _ _ _ _ _ Hr).
    rewrite (open_session_run _ _ _ _ _ _ Hp).
    eexists _, _, p. split; [reflexivity|]. split; [reflexivity|]. by split.
  - apply adjust_difficulty_cases.
  - intros lvl Hl. unfold adjust_difficulty.
    destruct (Z.ltb_spec lvl 3), (Z.ltb_spec lvl 7); try lia. done.
Qed.

Lemma start_session_difficulty_witness :
  ∃ gm' session p,
    start_session (demo_env "s-1") "bob" HARD false init = (gm', Ok session) ∧
    store gm' !! player session = Some p ∧
    prompt session
    = generate (prompt_draw (demo_env "s-1"))
        (adjust_difficulty (level p) (pick_difficulty (demo_env "s-1"))) false ∧
    (assoc "bob" (players init) = None → level p = 1).
Proof.
  exact (proj1 (proj2 (proj2 (start_session_difficulty (demo_env "s-1") "bob"
                                 HARD EASY false init wf_init)))).
Defined.

(** ** Sorting *)




Section sorting.
Context {A : Type} (key : A → Z * Z).

Lemma insert_desc_perm x l : insert_desc key x l ≡ₚ x :: l.
Proof.
  induction l as [|y l IH]; simpl; [done|].
  destruct (key_lt (key x) (key y)); [|done].
  rewrite IH. apply Permutation_swap.
Qed.

Lemma sorted_desc_perm l : sorted_desc key l ≡ₚ l.
Proof.
  induction l as [|x l IH]; simpl; [done|].
  unfold sorted_desc in *. simpl. by rewrite insert_desc_perm, IH.
Qed.




End sorting.

Lemma slice_to_take {A} (limit : Z) (xs : list A) :
  0 ≤ limit → slice_to limit xs = take (Z.to_nat limit) xs.
Proof. intros H. unfold slice_to. by destruct (Z.leb_spec 0 limit); [|lia]. Qed.

Lemma slice_to_all {A} (limit : Z) (xs : list A) :
  Z.of_nat (length xs) ≤ limit → slice_to limit xs = xs.
Proof. intros H. rewrite slice_to_take by lia. apply take_ge. lia. Qed.

(** ** Reading the players *)

Lemma deref_run r gm p : store gm !! r = Some p → deref r gm = (gm, Ok p).
Proof. intros H. unfold deref. by rewrite H. Qed.

Lemma collect_deref (refs : list ref) gm :
  Forall (λ r, r < length (store gm))%nat refs →
  collect refs (λ r, p ← deref r; mret (r, p)) gm
  = (gm, Ok (omap (λ r, (λ p, (r, p)) <$> store gm !! r) refs)).
Proof.
  induction 1 as [|r refs Hr _ IH]; [done|].
  apply lookup_lt_is_Some in Hr as [p Hp].
  cbn [collect]. rewrite !run_bind, (deref_run _ _ _ Hp).
  unfold mret at 1, M_ret at 1. rewrite run_bind, IH.
  cbn [omap list_omap]. by rewrite Hp.
Qed.

Lemma player_objects_run gm :
  wf gm → player_objects gm = (gm, Ok (objects_of gm)).
Proof.
  intros [Hp _]. unfold player_objects. rewrite run_bind. unfold gets at 1.
  apply collect_deref. apply Forall_forall. intros r Hr.
  unfold dict_values in Hr. apply list_elem_of_fmap in Hr as ([k r'] & -> & Hin).
  by eapply Hp.
Qed.

Lemma sorted_players_run gm :
  wf gm →
  sorted_players gm = (gm, Ok (sorted_desc (λ rp, sort_key rp.2) (objects_of gm))).
Proof.
  intros Hwf. unfold sorted_players. by rewrite run_bind, player_objects_run.
Qed.

Lemma get_leaderboard_run limit gm :
  wf gm →
  get_leaderboard limit gm
  = (gm, Ok (imap (λ i rp, row_of i rp.2)
               (slice_to limit (sorted_desc (λ rp, sort_key rp.2) (objects_of gm))))).
Proof.
  intros Hwf. unfold get_leaderboard. by rewrite run_bind, sorted_players_run.
Qed.

Lemma objects_of_refs gm : wf gm → (objects_of gm).*1 = dict_values (players gm).
Proof.
  intros [Hp _]. unfold objects_of.
  assert (Hall : Forall (λ r, r < length (store gm))%nat (dict_values (players gm))).
  { apply Forall_forall. intros r Hr. unfold dict_values in Hr.
    apply list_elem_of_fmap in Hr as ([k r'] & -> & Hin). by eapply Hp. }
  induction Hall as [|r refs Hr _ IH]; [done|].
  apply lookup_lt_is_Some in Hr as [p Hp']. cbn [omap list_omap].
  rewrite Hp'. simpl. f_equal. exact IH.
Qed.


(** ** Counters stay consistent *)




Lemma open_session_store env r hint surprise gm :
  store (open_session env r hint surprise gm).1 = store gm.
Proof.
  destruct (store gm !! r) as [p|] eqn:Hp.
  - by rewrite (open_session_run _ _ _ _ _ _ Hp).
  - unfold open_session. rewrite run_bind. unfold deref. by rewrite Hp.
Qed.

Lemma open_session_players env r hint surprise gm :
  players (open_session env r hint surprise gm).1 = players gm.
Proof.
  destruct (store gm !! r) as [p|] eqn:Hp.
  - by rewrite (open_session_run _ _ _ _ _ _ Hp).
  - unfold open_session. rewrite run_bind. unfold deref. by rewrite Hp.
Qed.



Lemma join_multiplayer_room_run room_id player_id gm :
  join_multiplayer_room room_id player_id gm
  = match multiplayer_rooms gm !! room_id with
    | Some members =>
        (if bool_decide (player_id ∈ members) then gm
         else set_multiplayer_rooms
                (<[room_id := (members ++ [player_id])%list]> (multiplayer_rooms gm))
                gm,
         Ok true)
    | None => (gm, Ok false)
    end.
Proof.
  unfold join_multiplayer_room. rewrite run_bind. unfold gets at 1.
  destruct (multiplayer_rooms gm !! room_id) as [members|]; [|done].
  rewrite run_bind. by destruct (bool_decide (player_id ∈ members)).
Qed.

Lemma join_room_frame room_id player_id gm :
  store (join_multiplayer_room room_id player_id gm).1 = store gm ∧
  players (join_multiplayer_room room_id player_id gm).1 = players gm ∧
  sessions (join_multiplayer_room room_id player_id gm).1 = sessions gm.
Proof.
  rewrite join_multiplayer_room_run.
  destruct (multiplayer_rooms gm !! room_id) as [members|]; [|done].
  by destruct (bool_decide (player_id ∈ members)).
Qed.



(** ** Accuracy *)




(** ** The leaderboard *)

Lemma demo_gm_reachable : reachable demo_gm.
Proof.
  unfold reachable, demo_gm.
  eapply rtc_l; [apply (step_create_player init "alice" 0 "Alice"); done|].
  eapply rtc_l; [|apply rtc_refl].
  apply step_start_session. by vm_compute.
Qed.



(** ** One player under two keys *)

Lemma complete_session_players now sid dd ai t gm :
  wf gm → players (complete_session now sid dd ai t gm).1 = players gm.
Proof.
  intros Hwf. destruct (sessions gm !! sid) as [s|] eqn:Hs.
  - destruct (wf_deref _ _ _ Hwf Hs) as [p Hp].
    by rewrite (complete_session_run _ _ _ _ _ _ _ _ Hs Hp).
  - unfold complete_session. rewrite run_bind. unfold gets at 1. by rewrite Hs.
Qed.

(** A key of [players] keeps its player through every later operation. *)
Lemma step_players_lookup gm gm' k r :
  wf gm → step gm gm' →
  assoc k (players gm) = Some r → assoc k (players gm') = Some r.
Proof.
  intros Hwf Hstep Hk. destruct Hstep as
    [uuid now nm Hfresh|env pid hint surprise Hfresh|env pid hint surprise
    |now sid dd ai t|uuid pid|room_id pid].
  - rewrite create_player_run. simpl. rewrite assoc_dict_set_ne; [done|].
    intros ->. congruence.
  - destruct (assoc pid (players gm)) as [r'|] eqn:Hr.
    + assert (is_Some (store gm !! r')) as [p Hp].
      { apply lookup_lt_is_Some. destruct Hwf as [Hpl _].
        eapply Hpl. by apply assoc_elem_of. }
      by rewrite (start_session_known _ _ _ _ _ _ _ Hr Hp), open_session_players.
    + rewrite (start_session_unknown _ _ _ _ _ Hr), open_session_players. simpl.
      rewrite !assoc_dict_set_ne; [done|intros E; rewrite E in *; congruence..].
  - destruct (assoc pid (players gm)) as [r'|] eqn:Hr.
    + by rewrite (start_session_strict_known _ _ _ _ _ _ Hr), open_session_players.
    + by rewrite (start_session_strict_unknown _ _ _ _ _ Hr).
  - by rewrite complete_session_players.
  - done.
  - by rewrite (proj1 (proj2 (join_room_frame _ _ _))).
Qed.

Lemma steps_players_lookup gm gm' k r :
  wf gm → rtc step gm gm' →
  assoc k (players gm) = Some r → assoc k (players gm') = Some r.
Proof.
  intros Hwf Hsteps. induction Hsteps as [|gm gm1 gm2 Hstep _ IH]; [done|].
  intros Hk. apply IH; [by eapply step_wf|]. by eapply step_players_lookup.
Qed.

(** Two keys with the same value: the value occurs twice among the values. *)
Lemma dict_values_once {V} `{EqDecision V} (d : list (string * V)) k (v : V) :
  assoc k d = Some v → (1 ≤ length (filter (λ x, x = v) (dict_values d)))%nat.
Proof.
  unfold dict_values. induction d as [|[k0 w] d IH]; [done|].
  cbn [assoc]. rewrite fmap_cons, filter_cons. cbn [snd].
  destruct (String.eqb_spec k0 k).
  - intros [= ->]. rewrite decide_True by done. cbn [length]. lia.
  - intros H%IH. destruct (decide (w = v)); cbn [length]; lia.
Qed.

Lemma dict_values_twice {V} `{EqDecision V} (d : list (string * V)) k1 k2 (v : V) :
  k1 ≠ k2 → assoc k1 d = Some v → assoc k2 d = Some v →
  (2 ≤ length (filter (λ x, x = v) (dict_values d)))%nat.
Proof.
  intros Hne. induction d as [|[k0 w] d IH]; [done|].
  unfold dict_values in *. cbn [assoc]. rewrite fmap_cons, filter_cons. cbn [snd].
  destruct (String.eqb_spec k0 k1) as [E1|H1], (String.eqb_spec k0 k2) as [E2|H2].
  - congruence.
  - intros [= ->] H%dict_values_once. unfold dict_values in H.
    rewrite decide_True by done. cbn [length]. lia.
  - intros H%dict_values_once [= ->]. unfold dict_values in H.
    rewrite decide_True by done. cbn [length]. lia.
  - intros Ha Hb. specialize (IH Ha Hb). destruct (decide (w = v)); cbn [length]; lia.
Qed.

Lemma filter_fst_length {B} (r : ref) (l : list (ref * B)) :
  length (filter (λ ab, ab.1 = r) l) = length (filter (λ x, x = r) l.*1).
Proof.
  induction l as [|[a b] l IH]; [done|].
  rewrite fmap_cons, !filter_cons. cbn [fst].
  destruct (decide (a = r)); cbn [length]; by rewrite IH.
Qed.

(** C10. In the auto-creating [start_session], a caller-supplied id that
    is unknown (and differs from the uuid drawn by [create_player]) ends
    up as a second key for the one new [Player] object, whose [id] field
    it overwrites.  Both keys keep designating that object in every later
    state, so the values of [players] contain it twice and the ranking
    sorted by [get_leaderboard] lists it twice: the leaderboard is the
    first [limit] entries of that ranking, all of it when [limit] is at
    least the number of keys. *)
Theorem auto_created_player_is_aliased env player_id hint surprise gm :
  wf gm →
  assoc player_id (players gm) = None →
  uuid_player env ≠ player_id →
  let gm1 := (start_session env player_id hint surprise gm).1 in
  let r := length (store gm) in
  assoc (uuid_player env) (players gm1) = Some r ∧
  assoc player_id (players gm1) = Some r ∧
  (∃ p, store gm1 !! r = Some p ∧ id p = player_id) ∧
  ∀ gm2, rtc step gm1 gm2 →
    assoc (uuid_player env) (players gm2) = Some r ∧
    assoc player_id (players gm2) = Some r ∧
    (2 ≤ length (filter (λ x, x = r) (dict_values (players gm2))))%nat ∧
    ∃ ranked,
      sorted_players gm2 = (gm2, Ok ranked) ∧
      length ranked = length (players gm2) ∧
      (2 ≤ length (filter (λ rp, rp.1 = r) ranked))%nat ∧
      ∀ limit,
        get_leaderboard limit gm2
        = (gm2, Ok (imap (λ i rp, row_of i rp.2) (slice_to limit ranked))) ∧
        (Z.of_nat (length (players gm2)) ≤ limit → slice_to limit ranked = ranked).
Proof.
  intros Hwf Hunknown Hne gm1 r.
  assert (Hgm1 : gm1 = (open_session env r hint surprise
                          (provisioned env player_id gm)).1).
  { subst gm1. by rewrite (start_session_unknown _ _ _ _ _ Hunknown). }
  assert (Hwf1 : wf gm1) by (subst gm1; by apply start_session_wf).
  assert (Hu : assoc (uuid_player env) (players gm1) = Some r).
  { rewrite Hgm1, open_session_players. simpl.
    rewrite assoc_dict_set_ne by done. apply assoc_dict_set_eq. }
  assert (Hp : assoc player_id (players gm1) = Some r).
  { rewrite Hgm1, open_session_players. simpl. apply assoc_dict_set_eq. }
  split; [exact Hu|]. split; [exact Hp|]. split.
  { rewrite Hgm1, open_session_store. simpl.
    eexists. split; [by rewrite lookup_app_r, Nat.sub_diag|]. done. }
  intros gm2 Hsteps.
  assert (Hwf2 : wf gm2) by by eapply steps_wf.
  assert (Hu2 := steps_players_lookup _ _ _ _ Hwf1 Hsteps Hu).
  assert (Hp2 := steps_players_lookup _ _ _ _ Hwf1 Hsteps Hp).
  assert (Htwice := dict_values_twice _ _ _ _ Hne Hu2 Hp2).
  split; [exact Hu2|]. split; [exact Hp2|]. split; [exact Htwice|].
  eexists. split; [by apply sorted_players_run|].
  assert (Hlen : length (sorted_desc (λ rp : ref * Player, sort_key rp.2)
                           (objects_of gm2)) = length (players gm2)).
  { rewrite sorted_desc_perm.
    rewrite <- (length_fmap fst), objects_of_refs by done.
    unfold dict_values. by rewrite length_fmap. }
  split; [exact Hlen|]. split.
  { rewrite sorted_desc_perm.
    rewrite filter_fst_length. by rewrite objects_of_refs. }
  intros limit. split; [by apply get_leaderboard_run|].
  intros Hl. apply slice_to_all. by rewrite Hlen.
Qed.

Lemma auto_created_player_is_aliased_witness :
  let gm1 := (start_session (demo_env "s-1") "bob" MEDIUM true init).1 in
  assoc "uuid-p" (players gm1) = Some 0%nat ∧
  assoc "bob" (players gm1) = Some 0%nat ∧
  ∃ p, store gm1 !! 0%nat = Some p ∧ id p = "bob".
Proof.
  destruct (auto_created_player_is_aliased (demo_env "s-1") "bob" MEDIUM true init
              wf_init eq_refl ltac:(done)) as (H1 & H2 & H3 & _).
  split; [exact H1|]. split; [exact H2|exact H3].
Defined.

(** * Further properties *)

(** ** Brushes and achievements of one player *)

Lemma unlock_brush_held brush p :
  brush ∈ brushes_unlocked p → unlock_brush brush p = p.
Proof. intros H. unfold unlock_brush. by rewrite bool_decide_eq_true_2. Qed.

Lemma unlock_brush_prefix brush p :
  brushes_unlocked p `prefix_of` brushes_unlocked (unlock_brush brush p).
Proof.
  unfold unlock_brush. destruct (bool_decide (brush ∈ brushes_unlocked p));
    [done|]. simpl. by apply prefix_app_r.
Qed.

Lemma unlock_brush_elem brush p b :
  b ∈ brushes_unlocked (unlock_brush brush p) ↔ b ∈ brushes_unlocked p ∨ b = brush.
Proof.
  unfold unlock_brush.
  destruct (bool_decide_reflect (brush ∈ brushes_unlocked p)) as [H|H]; simpl.
  - split; [by left | by intros [?| ->]].
  - rewrite elem_of_app, list_elem_of_singleton. tauto.
Qed.

Lemma unlock_brush_NoDup brush p :
  NoDup (brushes_unlocked p) → NoDup (brushes_unlocked (unlock_brush brush p)).
Proof.
  intros Hnd. unfold unlock_brush.
  destruct (bool_decide_reflect (brush ∈ brushes_unlocked p)) as [H|H]; simpl;
    [done|].
  apply NoDup_app. split_and!; [done| |apply NoDup_singleton].
  intros x Hx ->%list_elem_of_singleton. contradiction.
Qed.

(** X1. [unlock_brush] is an idempotent insertion at the end: the brush is
    held afterwards, the brushes held before keep their order, no
    duplicate appears, and a second call changes nothing. *)
Theorem unlock_brush_idempotent (brush : BrushType) (p : Player) :
  brush ∈ brushes_unlocked (unlock_brush brush p) ∧
  brushes_unlocked p `prefix_of` brushes_unlocked (unlock_brush brush p) ∧
  (∀ b, b ∈ brushes_unlocked (unlock_brush brush p) ↔
        b ∈ brushes_unlocked p ∨ b = brush) ∧
  (NoDup (brushes_unlocked p) → NoDup (brushes_unlocked (unlock_brush brush p))) ∧
  (brush ∈ brushes_unlocked p → unlock_brush brush p = p) ∧
  unlock_brush brush (unlock_brush brush p) = unlock_brush brush p.
Proof.
  split_and!.
  - apply unlock_brush_elem. by right.
  - apply unlock_brush_prefix.
  - intros b. apply unlock_brush_elem.
  - apply unlock_brush_NoDup.
  - apply unlock_brush_held.
  - apply unlock_brush_held, unlock_brush_elem. by right.
Qed.

(** X2. [add_achievement] is an idempotent insertion at the end, like
    [unlock_brush]. *)
Theorem add_achievement_idempotent (aid : string) (p : Player) :
  aid ∈ achievements (add_achievement aid p) ∧
  achievements p `prefix_of` achievements (add_achievement aid p) ∧
  (∀ a, a ∈ achievements (add_achievement aid p) ↔ a ∈ achievements p ∨ a = aid) ∧
  (NoDup (achievements p) → NoDup (achievements (add_achievement aid p))) ∧
  (aid ∈ achievements p → add_achievement aid p = p) ∧
  add_achievement aid (add_achievement aid p) = add_achievement aid p.
Proof.
  assert (Hin : aid ∈ achievements (add_achievement aid p)).
  { unfold add_achievement. destruct (bool_decide_reflect (aid ∈ achievements p));
      [done|]. simpl. apply elem_of_app. right. apply list_elem_of_here. }
  assert (Hsame : ∀ q, aid ∈ achievements q → add_achievement aid q = q).
  { intros q Hq. unfold add_achievement. by rewrite bool_decide_eq_true_2. }
  split_and!; [done| | | |apply Hsame|by apply Hsame].
  - unfold add_achievement. destruct (bool_decide (aid ∈ achievements p));
      [done|]. simpl. by apply prefix_app_r.
  - intros a. unfold add_achievement.
    destruct (bool_decide_reflect (aid ∈ achievements p)) as [H|H]; simpl.
    + split; [by left | by intros [?| ->]].
    + rewrite elem_of_app, list_elem_of_singleton. tauto.
  - intros Hnd. unfold add_achievement.
    destruct (bool_decide_reflect (aid ∈ achievements p)) as [H|H]; simpl; [done|].
    apply NoDup_app. split_and!; [done| |apply NoDup_singleton].
    intros x Hx ->%list_elem_of_singleton. contradiction.
Qed.

Lemma add_achievement_idempotent_witness :
  let p := add_achievement "first_draw" (new_Player "p-1" "Ana" None) in
  add_achievement "first_draw" p = p.
Proof.
  apply (proj1 (proj2 (proj2 (proj2 (proj2
           (add_achievement_idempotent "first_draw"
              (add_achievement "first_draw" (new_Player "p-1" "Ana" None)))))))).
  by_compute.
Defined.

Lemma unlock_brush_idempotent_witness :
  unlock_brush NORMAL (new_Player "p-1" "Ana" None) = new_Player "p-1" "Ana" None.
Proof.
  apply (proj1 (proj2 (proj2 (proj2 (proj2
           (unlock_brush_idempotent NORMAL (new_Player "p-1" "Ana" None))))))).
  by_compute.
Defined.

(** ** Conservation of xp *)

Lemma add_xp_total (points : Z) (p : Player) :
  total_xp (add_xp points p).1 = total_xp p + points.
Proof.
  unfold total_xp. destruct (Z.leb_spec (level p * 100) (xp p + points)).
  - rewrite add_xp_level_up by done. simpl. lia.
  - rewrite add_xp_stay by done. simpl. lia.
Qed.

Lemma add_xp_level (points : Z) (p : Player) :
  level p ≤ level (add_xp points p).1 ≤ level p + 1.
Proof.
  destruct (Z.leb_spec (level p * 100) (xp p + points)).
  - rewrite add_xp_level_up by done. simpl. lia.
  - rewrite add_xp_stay by done. simpl. lia.
Qed.

(** X3. [add_xp(points)] neither loses nor invents xp: the total earned (xp
    at hand plus thresholds paid) grows by exactly [points], whether or
    not the call levels up; and the level never goes down. *)
Theorem add_xp_conserves_total (points : Z) (p : Player) :
  total_xp (add_xp points p).1 = total_xp p + points ∧
  level p ≤ level (add_xp points p).1 ≤ level p + 1 ∧
  ((add_xp points p).2 = true ↔ level (add_xp points p).1 = level p + 1).
Proof.
  unfold total_xp.
  destruct (Z.leb_spec (level p * 100) (xp p + points)).
  - rewrite add_xp_level_up by done. simpl. split_and!; [lia..|]. split; [lia|done].
  - rewrite add_xp_stay by done. simpl. split_and!; [lia..|]. split; [done|lia].
Qed.

(** ** Unlocking brushes by level *)

Lemma unlock_fold_spec (us : list (Z * BrushType)) (p : Player) :
  let q := foldl (λ p '(lvl, brush),
                    if lvl <=? level p then unlock_brush brush p else p) p us in
  level q = level p ∧
  brushes_unlocked p `prefix_of` brushes_unlocked q ∧
  (∀ b, b ∈ brushes_unlocked q ↔
        b ∈ brushes_unlocked p ∨ ∃ lvl, (lvl, b) ∈ us ∧ lvl ≤ level p) ∧
  (NoDup (brushes_unlocked p) → NoDup (brushes_unlocked q)).
Proof.
  revert p. induction us as [|[lvl brush] us IH]; intros p.
  - cbn [foldl]. split_and!; [done..| |done].
    intros b. split; [by left|]. intros [?|(? & []%elem_of_nil & _)]. done.
  - cbn [foldl]. cbv zeta.
    set (p1 := if lvl <=? level p then unlock_brush brush p else p).
    destruct (IH p1) as (Hl & Hpre & Hmem & Hnd). cbv zeta in Hl, Hpre, Hmem, Hnd.
    pose proof (unlock_brush_prefix brush p) as Hpre1.
    pose proof (unlock_brush_elem brush p) as Hmem1.
    pose proof (unlock_brush_NoDup brush p) as Hnd1.
    destruct (unlock_brush_frame brush p) as (_ & _ & Hl1 & _). cbv zeta in Hl1.
    assert (Hlp : level p1 = level p).
    { subst p1. by destruct (lvl <=? level p). }
    split_and!.
    + by rewrite Hl.
    + etrans; [|exact Hpre]. subst p1. by destruct (lvl <=? level p).
    + intros b. rewrite Hmem, Hlp. subst p1.
      destruct (Z.leb_spec lvl (level p)).
      * rewrite Hmem1. split.
        -- intros [[?| ->]|(l' & Hin & Hle)]; [by left| |].
           ++ right. exists lvl. split; [apply list_elem_of_here|done].
           ++ right. exists l'. split; [by apply list_elem_of_further|done].
        -- intros [?|(l' & Hin & Hle)]; [by left; left|].
           apply elem_of_cons in Hin as [[= -> ->]|Hin]; [by left; right|].
           right. by exists l'.
      * split.
        -- intros [?|(l' & Hin & Hle)]; [by left|].
           right. exists l'. split; [by apply list_elem_of_further|done].
        -- intros [?|(l' & Hin & Hle)]; [by left|].
           apply elem_of_cons in Hin as [[= -> ->]|Hin]; [lia|].
           right. by exists l'.
    + intros H. apply Hnd. subst p1. destruct (lvl <=? level p); auto.
Qed.

Lemma unlock_fold_fixed (us : list (Z * BrushType)) (q : Player) :
  (∀ lvl b, (lvl, b) ∈ us → lvl ≤ level q → b ∈ brushes_unlocked q) →
  foldl (λ p '(lvl, brush), if lvl <=? level p then unlock_brush brush p else p)
        q us = q.
Proof.
  induction us as [|[lvl brush] us IH]; intros H; [done|].
  cbn [foldl].
  assert ((if lvl <=? level q then unlock_brush brush q else q) = q) as ->.
  { destruct (Z.leb_spec lvl (level q)); [|done].
    apply unlock_brush_held. apply (H lvl); [apply list_elem_of_here|done]. }
  apply IH. intros l b Hin. apply H. by apply list_elem_of_further.
Qed.

(** X4. [_unlock_brushes(player)] replaces the player object by one that
    holds, besides the brushes held before (in their order), every brush
    of the table whose level threshold the player has reached, and no
    other; level and duplicate-freeness are kept, and running it again
    changes nothing.  The thresholds are 3 (neon), 5 (spray), 7 (marker)
    and 10 (sparkle). *)
Theorem unlock_brushes_by_level (r : ref) (gm : GameManager) (p : Player) :
  store gm !! r = Some p →
  let q := brushes_after p in
  _unlock_brushes r gm = (set_store (<[r := q]> (store gm)) gm, Ok tt) ∧
  level q = level p ∧
  brushes_unlocked p `prefix_of` brushes_unlocked q ∧
  (∀ b, b ∈ brushes_unlocked q ↔
        b ∈ brushes_unlocked p ∨
        (b = NEON ∧ 3 ≤ level p) ∨ (b = SPRAY ∧ 5 ≤ level p) ∨
        (b = MARKER ∧ 7 ≤ level p) ∨ (b = SPARKLE ∧ 10 ≤ level p)) ∧
  (NoDup (brushes_unlocked p) → NoDup (brushes_unlocked q)) ∧
  brushes_after q = q.
Proof.
  intros Hp q.
  destruct (unlock_fold_spec unlocks p) as (Hl & Hpre & Hmem & Hnd).
  cbv zeta in Hl, Hpre, Hmem, Hnd. fold (brushes_after p) in Hl, Hpre, Hmem, Hnd.
  fold q in Hl, Hpre, Hmem, Hnd.
  split_and!; [|done|done| |done|].
  - assert (Hr : (r < length (store gm))%nat) by by eapply lookup_lt_Some.
    rewrite <- (upd_same r p gm Hp) at 1. rewrite unlock_brushes_upd by done.
    unfold upd, set_store. by destruct gm.
  - intros b. rewrite Hmem. unfold unlocks.
    split; (intros [?|H]; [by left|right]).
    + destruct H as (lvl & Hin & Hle).
      repeat (apply elem_of_cons in Hin as [[= -> ->]|Hin]; [tauto|]).
      by apply elem_of_nil in Hin.
    + destruct H as [[-> ?]|[[-> ?]|[[-> ?]|[-> ?]]]]; eexists;
        (split; [|eassumption]); by_compute.
  - apply unlock_fold_fixed. intros lvl b Hin Hle. apply Hmem. right.
    exists lvl. split; [done|]. by rewrite <- Hl.
Qed.

Lemma unlock_brushes_by_level_witness :
  _unlock_brushes 0%nat demo_gm
  = (set_store (<[0%nat := brushes_after demo_player]> (store demo_gm)) demo_gm,
     Ok tt).
Proof.
  apply (unlock_brushes_by_level 0%nat demo_gm demo_player). by vm_compute.
Defined.

(** ** What a completion does to the player, field by field *)

Lemma grant_level ids p : level p ≤ level (grant ids p).
Proof.
  unfold grant. revert p. induction ids as [|aid ids IH]; intros p; [done|].
  cbn [foldl]. etrans; [|apply IH].
  apply add_xp_level.
Qed.

Lemma grant_total_xp ids p :
  total_xp (grant ids p) = total_xp p + foldr (λ aid acc, bonus_of aid + acc) 0 ids.
Proof.
  unfold grant. revert p. induction ids as [|aid ids IH]; intros p.
  - simpl. lia.
  - cbn [foldl foldr]. rewrite IH.
    rewrite add_xp_total. unfold bonus_of. lia.
Qed.

(** The player object at the moment [check_achievements] is called. *)
Lemma player_after_fields now s' p :
  let p1 := stats_after now (correct s') p in
  let q := brushes_after (add_xp (score s') p1).1 in
  let new := newly_unlocked q s' in
  brushes_unlocked (player_after now s' p) = brushes_unlocked q ∧
  achievements (player_after now s' p) = (achievements p ++ new)%list ∧
  achievements q = achievements p ∧
  brushes_unlocked p `prefix_of` brushes_unlocked q ∧
  level q = level (add_xp (score s') p1).1 ∧
  level p ≤ level q ∧
  level q ≤ level (player_after now s' p) ∧
  total_xp (player_after now s' p)
  = total_xp p + score s' + foldr (λ aid acc, bonus_of aid + acc) 0 new.
Proof.
  intros p1 q new.
  assert (Hpa : player_after now s' p
                = grant new (set_achievements (achievements q ++ new) q)).
  { unfold player_after. cbv zeta. fold p1. fold q.
    by rewrite check_achievements_eq. }
  destruct (grant_frame new (set_achievements (achievements q ++ new) q))
    as (_ & _ & _ & _ & _ & Hgb & Hga & _).
  cbv zeta in Hgb, Hga. cbn [brushes_unlocked achievements set_achievements] in Hgb, Hga.
  destruct (brushes_after_frame (add_xp (score s') p1).1)
    as (_ & _ & Hbl & Hbx & _ & _ & _ & Hba & _).
  cbv zeta in Hbl, Hbx, Hba. fold q in Hbl, Hbx, Hba.
  destruct (add_xp_frame (score s') p1) as (_ & _ & _ & _ & _ & Hab & Haa & _).
  cbv zeta in Hab, Haa.
  destruct (unlock_fold_spec unlocks (add_xp (score s') p1).1) as (_ & Hpre & _).
  cbv zeta in Hpre. fold (brushes_after (add_xp (score s') p1).1) in Hpre.
  fold q in Hpre. rewrite Hab in Hpre.
  assert (Hp1 : brushes_unlocked p1 = brushes_unlocked p ∧
                achievements p1 = achievements p ∧ level p1 = level p ∧
                xp p1 = xp p).
  { subst p1. unfold stats_after. by destruct (correct s'). }
  destruct Hp1 as (Hp1b & Hp1a & Hp1l & Hp1x).
  pose proof (add_xp_total (score s') p1) as Htx.
  pose proof (add_xp_level (score s') p1) as Hlv.
  assert (Hqa : achievements q = achievements p) by congruence.
  rewrite Hpa. split_and!.
  - exact Hgb.
  - by rewrite Hga, Hqa.
  - exact Hqa.
  - by rewrite <- Hp1b.
  - exact Hbl.
  - rewrite Hbl. lia.
  - etrans; [|apply grant_level]. done.
  - rewrite grant_total_xp. unfold total_xp in *.
    cbn [xp level set_achievements]. rewrite Hbl, Hbx. lia.
Qed.

(** ** Invariants of the reachable states *)

(** A property of player objects that fresh players have and that
    assigning the id and completing a session preserve holds for every
    player of every reachable state. *)
Lemma reachable_Forall (I : Player → Prop) :
  (∀ pid nm lp, I (new_Player pid nm lp)) →
  (∀ v p, I p → I (set_id v p)) →
  (∀ now s' p, I p → I (player_after now s' p)) →
  ∀ gm, reachable gm → Forall I (store gm).
Proof.
  intros Hnew Hid Hafter.
  assert (H : ∀ gm, reachable gm → wf gm ∧ Forall I (store gm));
    [|intros gm Hgm; by apply H].
  apply rtc_ind_r; [split; [apply wf_init | constructor]|].
  intros gm gm' _ Hstep [Hwf HI]. split; [by eapply step_wf|].
  destruct Hstep as
    [uuid now nm Hfresh|env pid hint surprise Hfresh|env pid hint surprise
    |now sid dd ai t|uuid pid|room_id pid].
  - rewrite create_player_run. simpl. apply Forall_app. by repeat constructor.
  - destruct (assoc pid (players gm)) as [r|] eqn:Hr.
    + assert (is_Some (store gm !! r)) as [p Hp].
      { apply lookup_lt_is_Some. destruct Hwf as [Hpl _].
        eapply Hpl. by apply assoc_elem_of. }
      by rewrite (start_session_known _ _ _ _ _ _ _ Hr Hp), open_session_store.
    + rewrite (start_session_unknown _ _ _ _ _ Hr), open_session_store. simpl.
      apply Forall_app. split; [done|]. repeat constructor. apply Hid, Hnew.
  - destruct (assoc pid (players gm)) as [r|] eqn:Hr.
    + by rewrite (start_session_strict_known _ _ _ _ _ _ Hr), open_session_store.
    + by rewrite (start_session_strict_unknown _ _ _ _ _ Hr).
  - destruct (sessions gm !! sid) as [s|] eqn:Hs.
    + destruct (wf_deref _ _ _ Hwf Hs) as [p Hp].
      rewrite (complete_session_run _ _ _ _ _ _ _ _ Hs Hp). cbn [fst store upd].
      apply Forall_insert; [done|]. apply Hafter.
      eapply Forall_lookup_1; [exact HI | exact Hp].
    + unfold complete_session. rewrite run_bind. unfold gets at 1. by rewrite Hs.
  - done.
  - by rewrite (proj1 (join_room_frame _ _ _)).
Qed.

Lemma unlocks_functional lvl lvl' b :
  (lvl, b) ∈ unlocks → (lvl', b) ∈ unlocks → lvl = lvl'.
Proof.
  unfold unlocks. rewrite !elem_of_cons, !elem_of_nil.
  intros [[= -> ->]|[[= -> ->]|[[= -> ->]|[[= -> ->]|[]]]]];
    intros [[= ->]|[[= ->]|[[= ->]|[[= ->]|[]]]]]; done.
Qed.

Lemma player_after_counters_ok now s' p :
  counters_ok p → counters_ok (player_after now s' p).
Proof.
  unfold counters_ok. intros (Hl & Hs & Hsc & Hct).
  destruct (player_after_stats now s' p) as (-> & _ & -> & -> & _).
  destruct (player_after_fields now s' p) as (_ & _ & _ & _ & _ & Hl1 & Hl2 & _).
  cbv zeta in Hl1, Hl2. destruct (correct s'); lia.
Qed.

Lemma player_after_brushes_ok now s' p :
  brushes_ok p → brushes_ok (player_after now s' p).
Proof.
  intros (Hnd & Hnormal & Hth).
  destruct (player_after_fields now s' p)
    as (Hb & _ & _ & Hpre & Hlq & Hlp & Hlf & _).
  cbv zeta in Hb, Hpre, Hlq, Hlp, Hlf.
  set (p2 := (add_xp (score s') (stats_after now (correct s') p)).1) in *.
  destruct (unlock_fold_spec unlocks p2) as (_ & _ & Hmem & Hnd2).
  cbv zeta in Hmem, Hnd2. fold (brushes_after p2) in Hmem, Hnd2.
  assert (Hp2 : brushes_unlocked p2 = brushes_unlocked p).
  { subst p2.
    destruct (add_xp_frame (score s') (stats_after now (correct s') p))
      as (_ & _ & _ & _ & _ & -> & _).
    unfold stats_after. by destruct (correct s'). }
  unfold brushes_ok. rewrite Hb. split_and!.
  - apply Hnd2. by rewrite Hp2.
  - apply Hmem. left. by rewrite Hp2.
  - intros lvl b Hin [Hold|(lvl' & Hin' & Hle)]%Hmem.
    + rewrite Hp2 in Hold. specialize (Hth lvl b Hin Hold). lia.
    + rewrite (unlocks_functional _ _ _ Hin Hin'). lia.
Qed.

Lemma newly_unlocked_awardable q s x :
  x ∈ newly_unlocked q s → x ∈ awardable ∧ x ∉ achievements q.
Proof.
  unfold newly_unlocked. rewrite !elem_of_app, !elem_of_fired.
  intros H. destruct_or!; destruct H as (_ & -> & Hn); (split; [by_compute|done]).
Qed.

Lemma player_after_achievements_ok now s' p :
  achievements_ok p → achievements_ok (player_after now s' p).
Proof.
  intros (Hnd & Haw).
  destruct (player_after_fields now s' p) as (_ & Ha & Hqa & _).
  cbv zeta in Ha, Hqa. unfold achievements_ok. rewrite Ha. split.
  - apply NoDup_app. split_and!; [done| |apply newly_unlocked_NoDup].
    intros x Hx [_ Hn]%newly_unlocked_awardable. rewrite Hqa in Hn. contradiction.
  - intros aid [?|[? _]%newly_unlocked_awardable]%elem_of_app; auto.
Qed.

(** X5. In every reachable state every player has level at least 1 and
    counters ordered [0 <= streak <= correct_guesses <= total_drawings]. *)
Theorem reachable_counters gm r p :
  reachable gm → store gm !! r = Some p → counters_ok p.
Proof.
  intros Hgm Hp. eapply Forall_lookup_1; [|exact Hp]. clear Hp. revert gm Hgm.
  apply reachable_Forall.
  - intros. unfold counters_ok. simpl. lia.
  - intros v q. by unfold counters_ok.
  - apply player_after_counters_ok.
Qed.

Lemma reachable_counters_witness : counters_ok demo_player.
Proof.
  apply (reachable_counters demo_gm 0%nat demo_player demo_gm_reachable).
  by vm_compute.
Defined.

(** X6. In every reachable state the brushes of every player are free of
    duplicates, include the default brush, and include no brush whose
    level threshold is above the player's level. *)
Theorem reachable_brushes gm r p :
  reachable gm → store gm !! r = Some p → brushes_ok p.
Proof.
  intros Hgm Hp. eapply Forall_lookup_1; [|exact Hp]. clear Hp. revert gm Hgm.
  apply reachable_Forall.
  - intros. unfold brushes_ok. simpl. split_and!.
    + apply NoDup_singleton.
    + apply list_elem_of_here.
    + intros lvl b Hin ->%list_elem_of_singleton. revert Hin. unfold unlocks.
      rewrite !elem_of_cons, elem_of_nil. intros H. destruct_or!; simplify_eq.
  - intros v q. by unfold brushes_ok.
  - apply player_after_brushes_ok.
Qed.

Lemma reachable_brushes_witness : brushes_ok demo_player.
Proof.
  apply (reachable_brushes demo_gm 0%nat demo_player demo_gm_reachable).
  by vm_compute.
Defined.

(** X7. In every reachable state the achievements of every player are free
    of duplicates and are among the five ids [check_achievements] awards;
    in particular nobody ever holds night_owl. *)
Theorem reachable_achievements gm r p :
  reachable gm → store gm !! r = Some p →
  achievements_ok p ∧ "night_owl" ∉ achievements p.
Proof.
  intros Hgm Hp.
  assert (Hok : achievements_ok p).
  { eapply Forall_lookup_1; [|exact Hp]. clear Hp. revert gm Hgm.
    apply reachable_Forall.
    - intros. split; [apply NoDup_nil_2 | by intros ? ?%elem_of_nil].
    - intros v q. by unfold achievements_ok.
    - apply player_after_achievements_ok. }
  split; [done|]. intros Hin%(proj2 Hok). revert Hin. unfold awardable.
  rewrite !elem_of_cons, elem_of_nil. intros H. by destruct_or!.
Qed.

Lemma reachable_achievements_witness :
  achievements_ok demo_player ∧ "night_owl" ∉ achievements demo_player.
Proof.
  apply (reachable_achievements demo_gm 0%nat demo_player demo_gm_reachable).
  by vm_compute.
Defined.

(** ** Player objects only grow *)

Lemma grows_refl p : grows p p.
Proof. unfold grows. by split_and!. Qed.

Lemma grows_trans p q r : grows p q → grows q r → grows p r.
Proof.
  unfold grows. intros (? & ? & ? & ? & ? & ? & ?) (? & ? & ? & ? & ? & ? & ?).
  split_and!; try congruence; try lia; by etrans.
Qed.

Lemma player_after_grows now s' p : grows p (player_after now s' p).
Proof.
  destruct (player_after_stats now s' p) as (Htd & _ & Hcg & _ & Hid & Hnm).
  destruct (player_after_fields now s' p)
    as (Hb & Ha & _ & Hpre & Hlq & Hlp & Hlf & _).
  cbv zeta in *. unfold grows. rewrite Hid, Hnm, Htd, Hcg, Hb, Ha.
  split_and!; try done; try lia.
  - destruct (correct s'); lia.
  - by apply prefix_app_r.
Qed.

Lemma step_grows gm gm' r p :
  wf gm → step gm gm' → store gm !! r = Some p →
  ∃ p', store gm' !! r = Some p' ∧ grows p p'.
Proof.
  intros Hwf Hstep Hp.
  assert (Hsame : store gm' = store gm ∨
                  (∃ q, store gm' = (store gm ++ [q])%list) ∨
                  (∃ r0 p0 now s', store gm !! r0 = Some p0 ∧
                     store gm' = <[r0 := player_after now s' p0]> (store gm))).
  { destruct Hstep as
      [uuid now nm Hfresh|env pid hint surprise Hfresh|env pid hint surprise
      |now sid dd ai t|uuid pid|room_id pid].
    - rewrite create_player_run. right; left. by eexists.
    - destruct (assoc pid (players gm)) as [r1|] eqn:Hr.
      + assert (is_Some (store gm !! r1)) as [p1 Hp1].
        { apply lookup_lt_is_Some. destruct Hwf as [Hpl _].
          eapply Hpl. by apply assoc_elem_of. }
        left. by rewrite (start_session_known _ _ _ _ _ _ _ Hr Hp1), open_session_store.
      + right; left.
        rewrite (start_session_unknown _ _ _ _ _ Hr), open_session_store.
        by eexists.
    - left. destruct (assoc pid (players gm)) as [r1|] eqn:Hr.
      + by rewrite (start_session_strict_known _ _ _ _ _ _ Hr), open_session_store.
      + by rewrite (start_session_strict_unknown _ _ _ _ _ Hr).
    - destruct (sessions gm !! sid) as [s|] eqn:Hs.
      + destruct (wf_deref _ _ _ Hwf Hs) as [p0 Hp0]. right; right.
        rewrite (complete_session_run _ _ _ _ _ _ _ _ Hs Hp0). cbn [fst store upd].
        by eexists _, _, _, _.
      + left. unfold complete_session. rewrite run_bind. unfold gets at 1.
        by rewrite Hs.
    - by left.
    - left. by rewrite (proj1 (join_room_frame _ _ _)). }
  destruct Hsame as [->|[[q ->]|(r0 & p0 & now & s' & Hp0 & ->)]].
  - exists p. split; [done|apply grows_refl].
  - exists p. split; [|apply grows_refl]. by apply lookup_app_l_Some.
  - destruct (decide (r0 = r)) as [->|Hne].
    + exists (player_after now s' p0). split.
      * apply list_lookup_insert_eq. by eapply lookup_lt_Some.
      * assert (p0 = p) as -> by congruence. apply player_after_grows.
    + exists p. split; [|apply grows_refl]. by rewrite list_lookup_insert_ne.
Qed.

(** X8. From a reachable state on, a player object is never removed and only
    grows: its id and name stay, its level, total drawings and correct
    guesses never decrease, and its brushes and achievements are only
    appended to. *)
Theorem players_only_grow gm gm' r p :
  reachable gm → rtc step gm gm' → store gm !! r = Some p →
  ∃ p', store gm' !! r = Some p' ∧ grows p p'.
Proof.
  intros Hgm Hsteps Hp. apply reachable_wf in Hgm. revert p Hp.
  induction Hsteps as [gm|gm gm1 gm' Hstep Hsteps IH]; intros p Hp.
  - exists p. split; [done|apply grows_refl].
  - destruct (step_grows _ _ _ _ Hgm Hstep Hp) as (p1 & Hp1 & Hg1).
    destruct (IH (step_wf _ _ Hstep Hgm) _ Hp1) as (p' & Hp' & Hg').
    exists p'. split; [done|by eapply grows_trans].
Qed.

Lemma players_only_grow_witness :
  ∃ p', store (complete_session 9 "s-1" "png" (demo_ai true 80) 3 demo_gm).1 !! 0%nat
        = Some p' ∧ grows demo_player p'.
Proof.
  apply (players_only_grow demo_gm _ 0%nat demo_player demo_gm_reachable).
  - apply rtc_once, step_complete_session.
  - by vm_compute.
Defined.

(** ** What [complete_session] does to the manager *)

Lemma bonus_of_nonneg aid : 0 ≤ bonus_of aid.
Proof.
  unfold bonus_of. destruct (assoc aid ACHIEVEMENTS) as [a|] eqn:Ha; [|done].
  apply assoc_elem_of in Ha. revert Ha. unfold ACHIEVEMENTS.
  rewrite !elem_of_cons, elem_of_nil. intros H.
  destruct_or!; try done; simplify_eq; simpl; lia.
Qed.

Lemma bonus_sum_nonneg ids : 0 ≤ foldr (λ aid acc, bonus_of aid + acc) 0 ids.
Proof.
  induction ids as [|aid ids IH]; simpl; [done|].
  pose proof (bonus_of_nonneg aid). lia.
Qed.

Lemma rows_of_bonus ids :
  foldr (λ u acc, ach_xp (unlocked_info u) + acc) 0 (rows_of ids)
  = foldr (λ aid acc, bonus_of aid + acc) 0 ids.
Proof.
  unfold rows_of, bonus_of. induction ids as [|aid ids IH]; [done|].
  cbn [omap list_omap foldr].
  destruct (assoc aid ACHIEVEMENTS) as [a|]; cbn [fmap option_fmap option_map default];
    fold (@omap list _ _ _
            (λ aid, (λ info, {| unlocked_id := aid; unlocked_info := info |})
                      <$> assoc aid ACHIEVEMENTS) ids) in *.
  - cbn [foldr unlocked_info]. by rewrite IH.
  - rewrite IH. lia.
Qed.

(** While the xp stays below the threshold the bonus grants change no
    level; the first grant that reaches it does. *)
Lemma grant_keeps_level ids q :
  xp q < level q * 100 →
  (level (grant ids q) = level q ↔
   xp q + foldr (λ aid acc, bonus_of aid + acc) 0 ids < level q * 100).
Proof.
  unfold grant. revert q. induction ids as [|aid ids IH]; intros q Hq.
  - simpl. split; [lia|done].
  - cbn [foldl foldr]. fold (bonus_of aid).
    pose proof (bonus_sum_nonneg ids) as Hsum.
    destruct (Z.le_gt_cases (level q * 100) (xp q + bonus_of aid)) as [Hup|Hstay].
    + pose proof (grant_level ids (add_xp (bonus_of aid) q).1) as Hle.
      unfold grant in Hle. rewrite (add_xp_level_up _ _ Hup) in *.
      cbn [fst level set_xp set_level] in Hle. cbn [fst] in *. split; lia.
    + rewrite (add_xp_stay _ _ Hstay). cbn [fst].
      rewrite (IH (set_xp (xp q + bonus_of aid) q)) by (simpl; lia).
      simpl. split; lia.
Qed.

Lemma unlocked_ids_eq now s' p :
  unlocked_ids now s' p
  = newly_unlocked
      (brushes_after (add_xp (score s') (stats_after now (correct s') p)).1) s'.
Proof. unfold unlocked_ids. cbv zeta. by rewrite check_achievements_eq. Qed.

Lemma player_after_eq now s' p :
  let q := brushes_after (add_xp (score s') (stats_after now (correct s') p)).1 in
  player_after now s' p
  = grant (newly_unlocked q s')
      (set_achievements (achievements q ++ newly_unlocked q s') q).
Proof. intros q. unfold player_after. cbv zeta. fold q. by rewrite check_achievements_eq. Qed.

(** The state and the result of a completion, with the facts the
    theorems below start from. *)
Lemma complete_session_result now sid dd ai t gm s p :
  sessions gm !! sid = Some s →
  store gm !! player s = Some p →
  let s' := session_after dd ai t s in
  let leveled := add_xp (score s') (stats_after now (correct s') p) in
  ∃ gm' res,
    complete_session now sid dd ai t gm = (gm', Ok res) ∧
    gm' = upd (player s) (player_after now s' p) (<[sid := s']> (sessions gm)) gm ∧
    completed res = s' ∧
    reward_xp (rewards res) = score s' ∧
    reward_score (rewards res) = score s' ∧
    unlocked res = rows_of (unlocked_ids now s' p) ∧
    level_up res = leveled.2 ∧
    new_level res = (if leveled.2 then Some (level (player_after now s' p)) else None).
Proof.
  intros Hs Hp s' leveled.
  pose proof (complete_session_run now sid dd ai t gm s p Hs Hp) as Hrun.
  cbv zeta in Hrun. eexists _, _. split; [exact Hrun|]. by split_and!.
Qed.

(** X9. The xp a completion gives is accounted for exactly: the xp
    earned in total (xp at hand plus the thresholds paid for the levels)
    grows by the reported xp plus the xp of every reported achievement,
    and the level never goes down. *)
Theorem complete_session_accounts_xp now sid dd ai t gm s p :
  sessions gm !! sid = Some s →
  store gm !! player s = Some p →
  ∃ gm' res p',
    complete_session now sid dd ai t gm = (gm', Ok res) ∧
    store gm' !! player s = Some p' ∧
    total_xp p' = total_xp p + reward_xp (rewards res)
                  + foldr (λ u acc, ach_xp (unlocked_info u) + acc) 0 (unlocked res) ∧
    level p ≤ level p'.
Proof.
  intros Hs Hp.
  destruct (complete_session_result now sid dd ai t gm s p Hs Hp)
    as (gm' & res & Hrun & -> & _ & Hxp & _ & Hun & _).
  cbv zeta in *. eexists _, res, _. split; [exact Hrun|]. split.
  { cbn [store upd]. apply list_lookup_insert_eq. by eapply lookup_lt_Some. }
  destruct (player_after_fields now (session_after dd ai t s) p)
    as (_ & _ & _ & _ & _ & Hl1 & Hl2 & Htx).
  cbv zeta in Hl1, Hl2, Htx.
  rewrite Htx, Hxp, Hun, rows_of_bonus, unlocked_ids_eq. split; [done|lia].
Qed.

Lemma complete_session_accounts_xp_witness :
  ∃ gm' res p',
    complete_session 9 "s-1" "png" (demo_ai true 80) 3 demo_gm = (gm', Ok res) ∧
    store gm' !! 0%nat = Some p' ∧
    total_xp p' = total_xp demo_player + reward_xp (rewards res)
                  + foldr (λ u acc, ach_xp (unlocked_info u) + acc) 0 (unlocked res) ∧
    level demo_player ≤ level p'.
Proof.
  apply (complete_session_accounts_xp 9 "s-1" "png" (demo_ai true 80) 3
           demo_gm demo_session demo_player).
  - exact demo_gm_session.
  - exact demo_gm_player.
Defined.

(** X10. A completion touches one session and one player object: the
    [players] dict, the rooms, every other object of the store and every
    other session are as before, no session is added or removed, and the
    completed session keeps its id, player, prompt and start time while
    it records the drawing, the guesses, the verdict and the time. *)
Theorem complete_session_frame now sid dd ai t gm s p :
  sessions gm !! sid = Some s →
  store gm !! player s = Some p →
  let gm' := (complete_session now sid dd ai t gm).1 in
  players gm' = players gm ∧
  multiplayer_rooms gm' = multiplayer_rooms gm ∧
  length (store gm') = length (store gm) ∧
  (∀ r, r ≠ player s → store gm' !! r = store gm !! r) ∧
  (∀ sid', sid' ≠ sid → sessions gm' !! sid' = sessions gm !! sid') ∧
  dom (sessions gm') = dom (sessions gm) ∧
  ∃ s', sessions gm' !! sid = Some s' ∧
    session_id s' = session_id s ∧ player s' = player s ∧
    prompt s' = prompt s ∧ started_at s' = started_at s ∧
    drawing_data s' = Some dd ∧
    ai_guesses s' = default [] (guesses ai) ∧
    correct s' = default false (ai_correct ai) ∧
    time_spent s' = t.
Proof.
  intros Hs Hp gm'.
  destruct (complete_session_result now sid dd ai t gm s p Hs Hp)
    as (gm1 & res & Hrun & Hgm1 & _).
  assert (Hgm' : gm' = gm1) by (subst gm'; by rewrite Hrun).
  rewrite Hgm', Hgm1. clear Hgm' Hgm1 Hrun gm' gm1 res. cbn [upd players
    multiplayer_rooms store sessions]. split_and!; try done.
  - by rewrite length_insert.
  - intros r Hr. by rewrite list_lookup_insert_ne.
  - intros sid' Hne. by rewrite lookup_insert_ne.
  - apply set_eq. intros k. rewrite !elem_of_dom.
    destruct (decide (k = sid)) as [->|Hne].
    + rewrite lookup_insert_eq, Hs. split; eauto.
    + by rewrite lookup_insert_ne.
  - exists (session_after dd ai t s). split; [by rewrite lookup_insert_eq|].
    by unfold session_after.
Qed.

Lemma complete_session_frame_witness :
  let gm' := (complete_session 9 "s-1" "png" (demo_ai true 80) 3 demo_gm).1 in
  players gm' = players demo_gm ∧
  multiplayer_rooms gm' = multiplayer_rooms demo_gm ∧
  length (store gm') = length (store demo_gm).
Proof.
  destruct (complete_session_frame 9 "s-1" "png" (demo_ai true 80) 3
              demo_gm demo_session demo_player demo_gm_session demo_gm_player)
    as (H1 & H2 & H3 & _).
  split_and!; assumption.
Defined.

(** X11. [level_up] reports the level gained from the score alone, and
    [new_level] is present exactly then, holding the final level.  When
    [level_up] is false the level still rises exactly if the score plus
    the achievement bonuses reach the threshold: in that case the result
    reports neither the level-up nor the new level. *)
Theorem level_up_reports_score_only now sid dd ai t gm s p :
  sessions gm !! sid = Some s →
  store gm !! player s = Some p →
  ∃ gm' res p',
    complete_session now sid dd ai t gm = (gm', Ok res) ∧
    store gm' !! player s = Some p' ∧
    let bonus := foldr (λ u acc, ach_xp (unlocked_info u) + acc) 0 (unlocked res) in
    (level_up res = true ↔ level p * 100 ≤ xp p + reward_xp (rewards res)) ∧
    new_level res = (if level_up res then Some (level p') else None) ∧
    (level_up res = true → level p + 1 ≤ level p') ∧
    (level_up res = false →
       (level p' = level p ↔
        xp p + reward_xp (rewards res) + bonus < level p * 100)).
Proof.
  intros Hs Hp.
  destruct (complete_session_result now sid dd ai t gm s p Hs Hp)
    as (gm' & res & Hrun & -> & _ & Hxp & _ & Hun & Hup & Hnew).
  cbv zeta in *. eexists _, res, _. split; [exact Hrun|]. split.
  { cbn [store upd]. apply list_lookup_insert_eq. by eapply lookup_lt_Some. }
  set (s' := session_after dd ai t s) in *.
  set (p1 := stats_after now (correct s') p) in *.
  assert (Hp1 : level p1 = level p ∧ xp p1 = xp p).
  { subst p1. unfold stats_after. by destruct (correct s'). }
  destruct Hp1 as [Hp1l Hp1x].
  pose proof (player_after_eq now s' p) as Hpa. cbv zeta in Hpa. fold p1 in Hpa.
  destruct (brushes_after_frame (add_xp (score s') p1).1)
    as (_ & _ & Hbl & Hbx & _).
  cbv zeta in Hbl, Hbx.
  set (q := brushes_after (add_xp (score s') p1).1) in *.
  rewrite Hun, rows_of_bonus, unlocked_ids_eq. fold p1. fold q.
  rewrite Hup, Hnew, Hxp, Hpa. clear Hup Hnew Hxp Hun Hrun Hpa.
  pose proof (grant_level (newly_unlocked q s')
                (set_achievements (achievements q ++ newly_unlocked q s') q)) as Hgl.
  cbn [level set_achievements] in Hgl.
  destruct (Z.le_gt_cases (level p1 * 100) (xp p1 + score s')) as [Hle|Hgt].
  - rewrite (add_xp_level_up _ _ Hle) in *. cbn [fst snd level set_xp set_level] in *.
    split_and!; [split; [lia|done] |done|lia|done].
  - pose proof (grant_keeps_level (newly_unlocked q s')
                  (set_achievements (achievements q ++ newly_unlocked q s') q)) as Hk.
    cbn [level xp set_achievements] in Hk.
    rewrite (add_xp_stay _ _ Hgt) in *. cbn [fst snd level xp set_xp] in *.
    split_and!; [split; [done|lia] |done|done|].
    intros _. rewrite Hbl, Hbx in Hk. rewrite <- Hp1l, <- Hp1x.
    apply Hk. lia.
Qed.

Lemma level_up_reports_score_only_witness :
  ∃ gm' res p',
    complete_session 9 "s-1" "png" (demo_ai false 0) 12 demo_gm = (gm', Ok res) ∧
    store gm' !! 0%nat = Some p' ∧
    level_up res = false ∧ new_level res = None ∧
    level demo_player = 1 ∧ level p' = 2.
Proof.
  destruct (level_up_reports_score_only 9 "s-1" "png" (demo_ai false 0) 12
              demo_gm demo_session demo_player demo_gm_session demo_gm_player)
    as (gm' & res & p' & Hrun & Hp' & _).
  exists gm', res, p'. split; [exact Hrun|]. split; [exact Hp'|].
  revert Hrun Hp'. vm_compute. intros [= <- <-] [= <-]. by split_and!.
Defined.

(** ** Players and sessions *)

(** X12. A created player is found again under the uuid it was given,
    as a fresh object with the dataclass defaults; every other id
    resolves as before and no existing object, session or room changes. *)
Theorem create_then_get_player uuid now nm gm :
  let gm' := (create_player uuid now nm gm).1 in
  let r := length (store gm) in
  (create_player uuid now nm gm).2 = Ok r ∧
  get_player uuid gm' = (gm', Ok (Some r)) ∧
  store gm' !! r = Some (new_Player uuid nm (Some now)) ∧
  (∀ k, k ≠ uuid → (get_player k gm').2 = (get_player k gm).2) ∧
  (∀ r' p, store gm !! r' = Some p → store gm' !! r' = Some p) ∧
  sessions gm' = sessions gm ∧
  multiplayer_rooms gm' = multiplayer_rooms gm.
Proof.
  intros gm' r. subst gm'. rewrite create_player_run. cbn [fst snd].
  unfold get_player, gets. cbn [players store sessions multiplayer_rooms].
  split_and!; try done.
  - by rewrite assoc_dict_set_eq.
  - by rewrite lookup_app_r, Nat.sub_diag.
  - intros k Hk. by rewrite assoc_dict_set_ne.
  - intros r' p Hp. by apply lookup_app_l_Some.
Qed.

Lemma start_session_ok env pid hint surprise gm :
  wf gm →
  ∃ r p gm0,
    gm0 = match assoc pid (players gm) with
          | Some _ => gm
          | None => provisioned env pid gm
          end ∧
    store gm0 !! r = Some p ∧ assoc pid (players gm0) = Some r ∧
    start_session env pid hint surprise gm = open_session env r hint surprise gm0.
Proof.
  intros Hwf. destruct (assoc pid (players gm)) as [r|] eqn:Hr.
  - assert (is_Some (store gm !! r)) as [p Hp].
    { apply lookup_lt_is_Some. destruct Hwf as [Hpl _].
      eapply Hpl. by apply assoc_elem_of. }
    exists r, p, gm. split_and!; try done.
    by apply start_session_known with p.
  - eexists (length (store gm)), _, _. split; [done|]. split_and!.
    + cbn [provisioned store]. by rewrite lookup_app_r, Nat.sub_diag.
    + cbn [provisioned players]. apply assoc_dict_set_eq.
    + by apply start_session_unknown.
Qed.

(** X13. The two copies of [game_manager.py] differ only on an unknown
    player id: on a known one both [start_session]s do the same and
    create no player; on an unknown one the strict copy raises
    ValueError and leaves the manager as it was, while the other copy
    succeeds with one more object in the store. *)
Theorem start_session_variants env pid hint surprise gm :
  wf gm →
  (∀ r, assoc pid (players gm) = Some r →
     Inkly.start_session env pid hint surprise gm
     = start_session env pid hint surprise gm ∧
     ∃ gm' s, start_session env pid hint surprise gm = (gm', Ok s) ∧
       player s = r ∧ store gm' = store gm ∧ players gm' = players gm) ∧
  (assoc pid (players gm) = None →
     Inkly.start_session env pid hint surprise gm
     = (gm, Raise (ValueError "Jogador não encontrado")) ∧
     ∃ gm' s, start_session env pid hint surprise gm = (gm', Ok s) ∧
       player s = length (store gm) ∧
       length (store gm') = S (length (store gm))).
Proof.
  intros Hwf. split.
  - intros r Hr.
    assert (is_Some (store gm !! r)) as [p Hp].
    { apply lookup_lt_is_Some. destruct Hwf as [Hpl _].
      eapply Hpl. by apply assoc_elem_of. }
    rewrite (start_session_strict_known _ _ _ _ _ _ Hr).
    rewrite (start_session_known _ _ _ _ _ _ _ Hr Hp). split; [done|].
    rewrite (open_session_run _ _ _ _ _ _ Hp). by eexists _, _.
  - intros Hr. split; [by apply start_session_strict_unknown|].
    rewrite (start_session_unknown _ _ _ _ _ Hr).
    erewrite open_session_run;
      [|cbn [provisioned store]; by rewrite lookup_app_r, Nat.sub_diag].
    eexists _, _. split; [done|]. split; [done|].
    cbn [set_sessions store provisioned]. rewrite length_app. simpl. lia.
Qed.

Lemma start_session_variants_witness :
  Inkly.start_session (demo_env "s-2") "bob" EASY true demo_gm
  = (demo_gm, Raise (ValueError "Jogador não encontrado")).
Proof.
  apply (start_session_variants (demo_env "s-2") "bob" EASY true demo_gm demo_gm_wf).
  by vm_compute.
Defined.

Lemma generate_time_limit rnd d surprise :
  time_limit (generate rnd d surprise) ∈ [20; 25; 30].
Proof.
  unfold generate. destruct (surprise_taken surprise rnd); [|destruct d];
    cbn [time_limit]; rewrite !elem_of_cons; auto.
Qed.




Lemma session_after_fields dd ai t s :
  session_id (session_after dd ai t s) = session_id s ∧
  player (session_after dd ai t s) = player s ∧
  prompt (session_after dd ai t s) = prompt s ∧
  drawing_data (session_after dd ai t s) = Some dd.
Proof. by unfold session_after. Qed.

Lemma reachable_sessions_aux gm :
  reachable gm →
  wf gm ∧ ∀ sid s, sessions gm !! sid = Some s →
    session_id s = sid ∧ time_limit (prompt s) ∈ [20; 25; 30] ∧
    (drawing_data s = None → ai_guesses s = [] ∧ correct s = false ∧ score s = 0).
Proof.
  revert gm. apply rtc_ind_r; [split; [apply wf_init|done]|].
  intros gm gm' _ Hstep [Hwf IH]. split; [by eapply step_wf|].
  assert (Hopen : ∀ env r hint surprise gm0,
            sessions gm0 = sessions gm →
            ∀ sid s, sessions (open_session env r hint surprise gm0).1 !! sid = Some s →
              session_id s = sid ∧ time_limit (prompt s) ∈ [20; 25; 30] ∧
              (drawing_data s = None →
               ai_guesses s = [] ∧ correct s = false ∧ score s = 0)).
  { intros env r hint surprise gm0 Hss sid s.
    destruct (store gm0 !! r) as [p|] eqn:Hp.
    - rewrite (open_session_run _ _ _ _ _ _ Hp). cbn [fst set_sessions sessions].
      rewrite Hss. destruct (decide (sid = uuid_session env)) as [->|Hne].
      + rewrite lookup_insert_eq. intros [= <-]. split; [done|].
        split; [apply generate_time_limit|done].
      + rewrite lookup_insert_ne by done. apply IH.
    - unfold open_session. rewrite run_bind. unfold deref at 1. rewrite Hp.
      cbn [fst]. rewrite Hss. apply IH. }
  destruct Hstep as
    [uuid now nm Hfresh|env pid hint surprise Hfresh|env pid hint surprise
    |now sid0 dd ai t|uuid pid|room_id pid].
  - rewrite create_player_run. exact IH.
  - destruct (start_session_ok env pid hint surprise gm Hwf)
      as (r & p & gm0 & Hgm0 & _ & _ & ->).
    apply Hopen. rewrite Hgm0. by destruct (assoc pid (players gm)).
  - destruct (assoc pid (players gm)) as [r|] eqn:Hr.
    + rewrite (start_session_strict_known _ _ _ _ _ _ Hr). by apply Hopen.
    + rewrite (start_session_strict_unknown _ _ _ _ _ Hr). exact IH.
  - destruct (sessions gm !! sid0) as [s0|] eqn:Hs0.
    + destruct (wf_deref _ _ _ Hwf Hs0) as [p0 Hp0].
      rewrite (complete_session_run _ _ _ _ _ _ _ _ Hs0 Hp0).
      cbn [fst sessions upd]. intros sid s.
      destruct (decide (sid = sid0)) as [->|Hne].
      * rewrite lookup_insert_eq. intros [= <-].
        destruct (IH _ _ Hs0) as (Hid & Hlim & _).
        destruct (session_after_fields dd ai t s0) as (-> & _ & -> & ->).
        by split_and!.
      * rewrite lookup_insert_ne by done. apply IH.
    + unfold complete_session. rewrite run_bind. unfold gets at 1. rewrite Hs0.
      exact IH.
  - exact IH.
  - rewrite (proj2 (proj2 (join_room_frame _ _ _))). exact IH.
Qed.

(** X15. In every reachable state a session is stored under its own id,
    its player exists, its time limit is 20, 25 or 30 seconds, and a
    session that holds no drawing yet has no guesses, is not correct and
    has score 0. *)
Theorem reachable_sessions gm sid s :
  reachable gm → sessions gm !! sid = Some s →
  session_id s = sid ∧
  is_Some (store gm !! player s) ∧
  time_limit (prompt s) ∈ [20; 25; 30] ∧
  (drawing_data s = None → ai_guesses s = [] ∧ correct s = false ∧ score s = 0).
Proof.
  intros [Hwf H]%reachable_sessions_aux Hs.
  destruct (H _ _ Hs) as (? & ? & ?). split_and!; try done.
  by eapply wf_deref.
Qed.

Lemma reachable_sessions_witness :
  session_id demo_session = "s-1" ∧
  is_Some (store demo_gm !! player demo_session) ∧
  time_limit (prompt demo_session) ∈ [20; 25; 30].
Proof.
  destruct (reachable_sessions demo_gm "s-1" demo_session demo_gm_reachable
              demo_gm_session) as (H1 & H2 & H3 & _).
  split_and!; assumption.
Defined.



(** ** Multiplayer rooms *)

Lemma substring_length n s :
  String.length (String.substring 0 n s) = Nat.min n (String.length s).
Proof.
  revert s. induction n as [|n IH]; intros [|c s]; simpl; try done.
  by rewrite IH.
Qed.

Lemma create_multiplayer_room_run uuid pid gm :
  create_multiplayer_room uuid pid gm
  = (set_multiplayer_rooms
       (<[String.substring 0 8 uuid := [pid]]> (multiplayer_rooms gm)) gm,
     Ok (String.substring 0 8 uuid)).
Proof. reflexivity. Qed.

(** X17. [create_multiplayer_room] returns the first 8 characters of the
    uuid and files a room with the creator as only member under it,
    replacing whatever room had that id; other rooms, the players and the
    sessions are untouched, and the creator is not required to be a
    registered player. *)
Theorem create_multiplayer_room_spec uuid pid gm :
  let room_id := String.substring 0 8 uuid in
  let gm' := (create_multiplayer_room uuid pid gm).1 in
  (create_multiplayer_room uuid pid gm).2 = Ok room_id ∧
  String.length room_id = Nat.min 8 (String.length uuid) ∧
  multiplayer_rooms gm' !! room_id = Some [pid] ∧
  (∀ k, k ≠ room_id → multiplayer_rooms gm' !! k = multiplayer_rooms gm !! k) ∧
  store gm' = store gm ∧ players gm' = players gm ∧ sessions gm' = sessions gm ∧
  get_room_players room_id gm'
  = (gm', Ok (match assoc pid (players gm) with Some r => [r] | None => [] end)).
Proof.
  intros room_id gm'. subst gm'. rewrite create_multiplayer_room_run.
  fold room_id.
  cbn [fst snd set_multiplayer_rooms multiplayer_rooms store players sessions].
  split_and!; try done.
  - apply substring_length.
  - by rewrite lookup_insert_eq.
  - intros k Hk. by rewrite lookup_insert_ne.
  - unfold get_room_players, gets.
    cbn [set_multiplayer_rooms multiplayer_rooms players].
    rewrite lookup_insert_eq. unfold default, from_option, Datatypes.id.
    cbn [omap list_omap]. by destruct (assoc pid (players gm)).
Qed.

(** X18. [join_multiplayer_room] returns true exactly when the room
    exists and then the player is a member, appended last unless already
    in; an unknown room leaves the manager as it was.  Joining never
    introduces a duplicate, touches no other room, and joining again
    changes nothing. *)
Theorem join_multiplayer_room_spec room_id pid gm :
  let gm' := (join_multiplayer_room room_id pid gm).1 in
  ((join_multiplayer_room room_id pid gm).2 = Ok true ↔
   is_Some (multiplayer_rooms gm !! room_id)) ∧
  (multiplayer_rooms gm !! room_id = None →
   join_multiplayer_room room_id pid gm = (gm, Ok false)) ∧
  (∀ members, multiplayer_rooms gm !! room_id = Some members →
     ∃ members', multiplayer_rooms gm' !! room_id = Some members' ∧
       pid ∈ members' ∧
       (pid ∈ members → gm' = gm) ∧
       (pid ∉ members → members' = (members ++ [pid])%list) ∧
       (NoDup members → NoDup members')) ∧
  (∀ k, k ≠ room_id → multiplayer_rooms gm' !! k = multiplayer_rooms gm !! k) ∧
  store gm' = store gm ∧ players gm' = players gm ∧ sessions gm' = sessions gm ∧
  join_multiplayer_room room_id pid gm'
  = (gm', (join_multiplayer_room room_id pid gm).2).
Proof.
  intros gm'. subst gm'. rewrite !join_multiplayer_room_run.
  destruct (multiplayer_rooms gm !! room_id) as [members|] eqn:Hroom.
  - cbn [fst snd]. destruct (bool_decide_reflect (pid ∈ members)) as [Hin|Hout].
    + rewrite Hroom, bool_decide_eq_true_2 by done.
      split_and!; try done.
      intros ? [= <-]. exists members. by split_and!.
    + cbn [set_multiplayer_rooms multiplayer_rooms store players sessions].
      rewrite lookup_insert_eq.
      rewrite bool_decide_eq_true_2 by (apply elem_of_app; right; apply list_elem_of_here).
      split_and!; try done.
      * intros ? [= <-]. exists (members ++ [pid])%list. split_and!; try done.
        -- apply elem_of_app. right. apply list_elem_of_here.
        -- intros Hnd. apply NoDup_app. split_and!; [done| |apply NoDup_singleton].
           by intros x Hx ->%list_elem_of_singleton.
      * intros k Hk. by rewrite lookup_insert_ne.
  - cbn [fst snd]. rewrite Hroom. by split_and!.
Qed.




Lemma reachable_rooms_aux gm :
  reachable gm →
  wf gm ∧ ∀ room members, multiplayer_rooms gm !! room = Some members →
    members ≠ [] ∧ NoDup members ∧ (String.length room ≤ 8)%nat.
Proof.
  revert gm. apply rtc_ind_r; [split; [apply wf_init|done]|].
  intros gm gm' _ Hstep [Hwf IH]. split; [by eapply step_wf|].
  assert (Hopen : ∀ env r hint surprise gm0,
            multiplayer_rooms (open_session env r hint surprise gm0).1
            = multiplayer_rooms gm0).
  { intros env r hint surprise gm0. destruct (store gm0 !! r) as [p|] eqn:Hp.
    - by rewrite (open_session_run _ _ _ _ _ _ Hp).
    - unfold open_session. rewrite run_bind. unfold deref at 1. by rewrite Hp. }
  destruct Hstep as
    [uuid now nm Hfresh|env pid hint surprise Hfresh|env pid hint surprise
    |now sid0 dd ai t|uuid pid|room_id pid].
  - rewrite create_player_run. exact IH.
  - destruct (start_session_ok env pid hint surprise gm Hwf)
      as (r & p & gm0 & Hgm0 & _ & _ & ->).
    rewrite Hopen, Hgm0. by destruct (assoc pid (players gm)).
  - destruct (assoc pid (players gm)) as [r|] eqn:Hr.
    + by rewrite (start_session_strict_known _ _ _ _ _ _ Hr), Hopen.
    + by rewrite (start_session_strict_unknown _ _ _ _ _ Hr).
  - destruct (sessions gm !! sid0) as [s0|] eqn:Hs0.
    + destruct (wf_deref _ _ _ Hwf Hs0) as [p0 Hp0].
      by rewrite (complete_session_run _ _ _ _ _ _ _ _ Hs0 Hp0).
    + unfold complete_session. rewrite run_bind. unfold gets at 1. by rewrite Hs0.
  - rewrite create_multiplayer_room_run.
    cbn [fst set_multiplayer_rooms multiplayer_rooms]. intros room members.
    destruct (decide (room = String.substring 0 8 uuid)) as [->|Hne].
    + rewrite lookup_insert_eq. intros [= <-].
      split_and!; [done|apply NoDup_singleton|rewrite substring_length; lia].
    + rewrite lookup_insert_ne by done. apply IH.
  - rewrite join_multiplayer_room_run.
    destruct (multiplayer_rooms gm !! room_id) as [old|] eqn:Hroom; [|exact IH].
    cbn [fst]. destruct (bool_decide_reflect (pid ∈ old)) as [Hin|Hout]; [exact IH|].
    cbn [set_multiplayer_rooms multiplayer_rooms]. intros room members.
    destruct (decide (room = room_id)) as [->|Hne].
    + rewrite lookup_insert_eq. intros [= <-].
      destruct (IH _ _ Hroom) as (_ & Hnd & Hlen).
      split_and!; [by destruct old| |done].
      apply NoDup_app. split_and!; [done| |apply NoDup_singleton].
      by intros x Hx ->%list_elem_of_singleton.
    + rewrite lookup_insert_ne by done. apply IH.
Qed.

(** X20. In every reachable state a room has an id of at most 8
    characters and a member list that is not empty and free of
    duplicates. *)
Theorem reachable_rooms gm room members :
  reachable gm → multiplayer_rooms gm !! room = Some members →
  members ≠ [] ∧ NoDup members ∧ (String.length room ≤ 8)%nat.
Proof. intros [_ H]%reachable_rooms_aux. apply H. Qed.

Lemma reachable_rooms_witness :
  ["alice"] ≠ [] ∧ NoDup ["alice"] ∧ (String.length "01234567" ≤ 8)%nat.
Proof.
  apply (reachable_rooms demo_room_gm "01234567" ["alice"]).
  - eapply rtc_r; [exact demo_gm_reachable|]. apply step_create_room.
  - by vm_compute.
Defined.

(** ** The leaderboard for any limit *)

Lemma imap_take {A B} (f : nat → A → B) (n : nat) (l : list A) :
  imap f (take n l) = take n (imap f l).
Proof.
  revert f n. induction l as [|x l IH]; intros f [|n]; try done.
  cbn [take]. rewrite !imap_cons. cbn [take]. by rewrite IH.
Qed.

(** X21. [get_leaderboard(limit)] changes nothing and returns a prefix
    of the full ranking, with ranks 1, 2, ...: the first [limit] rows for
    a limit that is not negative, none for 0, and for a negative limit
    all rows but the last [-limit] (Python's slice), so the lowest-ranked
    players are dropped. *)
Theorem get_leaderboard_slice gm limit :
  wf gm →
  ∃ rows all,
    get_leaderboard limit gm = (gm, Ok rows) ∧
    get_leaderboard (Z.of_nat (length (players gm))) gm = (gm, Ok all) ∧
    length all = length (players gm) ∧
    rows `prefix_of` all ∧
    (0 ≤ limit → length rows = Nat.min (Z.to_nat limit) (length all)) ∧
    (limit < 0 → length rows = (length all - Z.to_nat (- limit))%nat) ∧
    (limit = 0 → rows = []) ∧
    (∀ i row, rows !! i = Some row → rank row = Z.of_nat i + 1).
Proof.
  intros Hwf. rewrite !get_leaderboard_run by done.
  set (ranked := sorted_desc (λ rp : ref * Player, sort_key rp.2) (objects_of gm)).
  assert (Hlen : length ranked = length (players gm)).
  { subst ranked. rewrite sorted_desc_perm.
    rewrite <- (length_fmap fst), objects_of_refs by done.
    unfold dict_values. by rewrite length_fmap. }
  rewrite (slice_to_all (Z.of_nat (length (players gm))) ranked) by (rewrite Hlen; lia).
  eexists _, _. split; [done|]. split; [done|].
  rewrite !length_imap.
  assert (Htake : ∃ n, slice_to limit ranked = take n ranked ∧
            n = if 0 <=? limit then Z.to_nat limit
                else (length ranked - Z.to_nat (- limit))%nat).
  { unfold slice_to. destruct (0 <=? limit); by eexists. }
  destruct Htake as (n & -> & Hn). rewrite length_take.
  split_and!.
  - done.
  - rewrite imap_take. apply prefix_take.
  - intros Hl. destruct (Z.leb_spec 0 limit); [by subst n|lia].
  - intros Hl. destruct (Z.leb_spec 0 limit); [lia|]. subst n. lia.
  - intros ->. simpl in Hn. by subst n.
  - intros i row. rewrite list_lookup_imap.
    destruct (take n ranked !! i) as [rp|]; [|done]. by intros [= <-].
Qed.

Lemma get_leaderboard_slice_witness :
  ∃ rows all,
    get_leaderboard (-1) demo_gm = (demo_gm, Ok rows) ∧
    get_leaderboard (Z.of_nat (length (players demo_gm))) demo_gm
    = (demo_gm, Ok all) ∧
    length all = 1%nat ∧ rows = [].
Proof.
  destruct (get_leaderboard_slice demo_gm (-1) demo_gm_wf)
    as (rows & all & H1 & H2 & H3 & _ & _ & H4 & _).
  exists rows, all. split_and!; try assumption.
  specialize (H4 ltac:(lia)). rewrite H3 in H4. simpl in H4.
  by destruct rows.
Defined.

(** ** Identity of the players and persistence of the data *)

Lemma open_session_dangling env r hint surprise gm :
  store gm !! r = None →
  open_session env r hint surprise gm = (gm, Raise DanglingRef).
Proof.
  intros Hp. unfold open_session. rewrite run_bind. unfold deref at 1.
  by rewrite Hp.
Qed.

Lemma complete_session_missing now sid dd ai t gm :
  sessions gm !! sid = None →
  complete_session now sid dd ai t gm
  = (gm, Raise (ValueError "Sessão não encontrada")).
Proof.
  intros Hs. unfold complete_session. rewrite run_bind. unfold gets at 1.
  by rewrite Hs.
Qed.

Lemma reachable_ids_aux gm :
  reachable gm →
  wf gm ∧ ∀ r p, store gm !! r = Some p → assoc (id p) (players gm) = Some r.
Proof.
  revert gm. apply rtc_ind_r; [split; [apply wf_init|done]|].
  intros gm gm' _ Hstep [Hwf IH]. split; [by eapply step_wf|].
  destruct Hstep as
    [uuid now nm Hfresh|env pid hint surprise Hfresh|env pid hint surprise
    |now sid0 dd ai t|uuid pid|room_id pid].
  - rewrite create_player_run. cbn [fst store players]. intros r p.
    rewrite lookup_app_Some. intros [Hp|[Hge Hp]].
    + rewrite assoc_dict_set_ne; [by apply IH|].
      intros E. apply IH in Hp. rewrite <- E in Hp. congruence.
    + apply list_lookup_singleton_Some in Hp as [Hr <-]. cbn [id new_Player].
      assert (r = length (store gm)) as -> by lia. apply assoc_dict_set_eq.
  - destruct (assoc pid (players gm)) as [r0|] eqn:Hr.
    + assert (is_Some (store gm !! r0)) as [p0 Hp0].
      { apply lookup_lt_is_Some. destruct Hwf as [Hpl _].
        eapply Hpl. by apply assoc_elem_of. }
      rewrite (start_session_known _ _ _ _ _ _ _ Hr Hp0).
      by rewrite open_session_store, open_session_players.
    + rewrite (start_session_unknown _ _ _ _ _ Hr).
      rewrite open_session_store, open_session_players.
      cbn [provisioned store players]. intros r p.
      rewrite lookup_app_Some. intros [Hp|[Hge Hp]].
      * apply IH in Hp. rewrite !assoc_dict_set_ne; [done|congruence..].
      * apply list_lookup_singleton_Some in Hp as [Hr0 <-]. cbn [id set_id].
        assert (r = length (store gm)) as -> by lia. apply assoc_dict_set_eq.
  - destruct (assoc pid (players gm)) as [r0|] eqn:Hr.
    + rewrite (start_session_strict_known _ _ _ _ _ _ Hr).
      by rewrite open_session_store, open_session_players.
    + by rewrite (start_session_strict_unknown _ _ _ _ _ Hr).
  - destruct (sessions gm !! sid0) as [s0|] eqn:Hs0.
    + destruct (wf_deref _ _ _ Hwf Hs0) as [p0 Hp0].
      rewrite (complete_session_run _ _ _ _ _ _ _ _ Hs0 Hp0).
      cbn [fst store players upd]. intros r p.
      destruct (decide (r = player s0)) as [->|Hne].
      * rewrite list_lookup_insert_eq by by eapply lookup_lt_Some.
        intros [= <-].
        destruct (player_after_stats now (session_after dd ai t s0) p0)
          as (_ & _ & _ & _ & -> & _). exact (IH _ _ Hp0).
      * rewrite list_lookup_insert_ne by done. apply IH.
    + rewrite (complete_session_missing _ _ _ _ _ _ Hs0). exact IH.
  - exact IH.
  - destruct (join_room_frame room_id pid gm) as (-> & -> & _). exact IH.
Qed.

(** X22. In every reachable state each player object is found under
    its own [id]: [get_player(p.id)] returns the very object [p], also
    for a player whose id [start_session] has overwritten. *)
Theorem reachable_ids gm r p :
  reachable gm → store gm !! r = Some p →
  get_player (id p) gm = (gm, Ok (Some r)).
Proof.
  intros [_ H]%reachable_ids_aux Hp. unfold get_player, gets.
  by rewrite (H _ _ Hp).
Qed.

Lemma reachable_ids_witness : get_player "alice" demo_gm = (demo_gm, Ok (Some 0%nat)).
Proof.
  apply (reachable_ids demo_gm 0%nat demo_player demo_gm_reachable).
  by vm_compute.
Defined.

Lemma step_keeps gm gm' :
  wf gm → step gm gm' →
  (length (store gm) ≤ length (store gm'))%nat ∧
  (sessions gm' = sessions gm ∨ ∃ k v, sessions gm' = <[k := v]> (sessions gm)) ∧
  (multiplayer_rooms gm' = multiplayer_rooms gm ∨
   ∃ k v, multiplayer_rooms gm' = <[k := v]> (multiplayer_rooms gm)).
Proof.
  intros Hwf Hstep.
  assert (Hopen : ∀ env r hint surprise gm0,
            let gm1 := (open_session env r hint surprise gm0).1 in
            store gm1 = store gm0 ∧
            (sessions gm1 = sessions gm0 ∨
             ∃ k v, sessions gm1 = <[k := v]> (sessions gm0)) ∧
            multiplayer_rooms gm1 = multiplayer_rooms gm0).
  { intros env r hint surprise gm0 gm1. subst gm1.
    destruct (store gm0 !! r) as [p|] eqn:Hp.
    - rewrite (open_session_run _ _ _ _ _ _ Hp). cbn [fst]. split_and!; try done.
      right. by eexists _, _.
    - rewrite (open_session_dangling _ _ _ _ _ Hp).
      cbn [fst]. split_and!; [done|by left|done]. }
  destruct Hstep as
    [uuid now nm Hfresh|env pid hint surprise Hfresh|env pid hint surprise
    |now sid0 dd ai t|uuid pid|room_id pid].
  - rewrite create_player_run. cbn [fst store sessions multiplayer_rooms].
    rewrite length_app. split_and!; [lia|by left|by left].
  - destruct (start_session_ok env pid hint surprise gm Hwf)
      as (r & p & gm0 & Hgm0 & _ & _ & ->).
    destruct (Hopen env r hint surprise gm0) as (-> & Hss & ->).
    assert (E : (length (store gm) ≤ length (store gm0))%nat ∧
                sessions gm0 = sessions gm ∧
                multiplayer_rooms gm0 = multiplayer_rooms gm).
    { rewrite Hgm0. destruct (assoc pid (players gm)); [done|].
      cbn [provisioned store sessions multiplayer_rooms]. rewrite length_app.
      split_and!; [lia|done..]. }
    destruct E as (? & E1 & E2). rewrite E1 in Hss. rewrite E2.
    split_and!; [done|done|by left].
  - destruct (assoc pid (players gm)) as [r0|] eqn:Hr.
    + rewrite (start_session_strict_known _ _ _ _ _ _ Hr).
      destruct (Hopen env r0 hint surprise gm) as (-> & Hss & ->).
      split_and!; [done|done|by left].
    + rewrite (start_session_strict_unknown _ _ _ _ _ Hr).
      split_and!; [done|by left|by left].
  - destruct (sessions gm !! sid0) as [s0|] eqn:Hs0.
    + destruct (wf_deref _ _ _ Hwf Hs0) as [p0 Hp0].
      rewrite (complete_session_run _ _ _ _ _ _ _ _ Hs0 Hp0).
      cbn [fst store sessions multiplayer_rooms upd]. rewrite length_insert.
      split_and!; [done| |by left]. right. by eexists _, _.
    + rewrite (complete_session_missing _ _ _ _ _ _ Hs0).
      split_and!; [done|by left|by left].
  - rewrite create_multiplayer_room_run.
    cbn [fst set_multiplayer_rooms store sessions multiplayer_rooms].
    split_and!; [done|by left|]. right. by eexists _, _.
  - rewrite join_multiplayer_room_run.
    destruct (multiplayer_rooms gm !! room_id) as [old|];
      [|split_and!; [done|by left|by left]].
    cbn [fst]. destruct (bool_decide (pid ∈ old));
      [split_and!; [done|by left|by left]|].
    cbn [set_multiplayer_rooms store sessions multiplayer_rooms].
    split_and!; [done|by left|]. right. by eexists _, _.
Qed.

(** X23. The manager never forgets: from a reachable state on, whatever
    operations follow, every player id keeps resolving to the same
    object, the store never shrinks, and every session id and every room
    id stays in use. *)
Theorem nothing_is_removed gm gm' :
  reachable gm → rtc step gm gm' →
  (∀ k r, assoc k (players gm) = Some r → assoc k (players gm') = Some r) ∧
  (length (store gm) ≤ length (store gm'))%nat ∧
  dom (sessions gm) ⊆ dom (sessions gm') ∧
  dom (multiplayer_rooms gm) ⊆ dom (multiplayer_rooms gm').
Proof.
  intros Hgm Hsteps. apply reachable_wf in Hgm. split.
  { intros k r. by apply steps_players_lookup. }
  induction Hsteps as [gm|gm gm1 gm' Hstep Hsteps IH]; [done|].
  destruct (IH (step_wf _ _ Hstep Hgm)) as (Hl & Hs & Hr).
  destruct (step_keeps _ _ Hgm Hstep) as (Hl1 & Hs1 & Hr1).
  split_and!.
  - lia.
  - etrans; [|exact Hs]. destruct Hs1 as [->|(k & v & ->)]; [done|].
    rewrite dom_insert. apply union_subseteq_r.
  - etrans; [|exact Hr]. destruct Hr1 as [->|(k & v & ->)]; [done|].
    rewrite dom_insert. apply union_subseteq_r.
Qed.

Lemma nothing_is_removed_witness :
  dom (sessions demo_gm) ⊆ dom (sessions demo_room_gm) ∧
  dom (multiplayer_rooms demo_gm) ⊆ dom (multiplayer_rooms demo_room_gm).
Proof.
  destruct (nothing_is_removed demo_gm demo_room_gm demo_gm_reachable)
    as (_ & _ & H1 & H2).
  - apply rtc_once, step_create_room.
  - by split.
Defined.

(** ** Brushes and achievements after a completion *)

(** X24. A completion unlocks brushes against the level reached through
    the score alone: afterwards the player holds the brushes held before
    and those whose threshold is at most the old level, plus one if
    [level_up] is reported.  A level gained through achievement bonuses
    unlocks nothing in that call. *)
Theorem complete_session_brushes now sid dd ai t gm s p :
  sessions gm !! sid = Some s →
  store gm !! player s = Some p →
  ∃ gm' res p',
    complete_session now sid dd ai t gm = (gm', Ok res) ∧
    store gm' !! player s = Some p' ∧
    brushes_unlocked p `prefix_of` brushes_unlocked p' ∧
    ∀ b, b ∈ brushes_unlocked p' ↔
         b ∈ brushes_unlocked p ∨
         ∃ lvl, (lvl, b) ∈ unlocks ∧
                lvl ≤ level p + (if level_up res then 1 else 0).
Proof.
  intros Hs Hp.
  destruct (complete_session_result now sid dd ai t gm s p Hs Hp)
    as (gm' & res & Hrun & -> & _ & _ & _ & _ & Hup & _).
  cbv zeta in *. eexists _, res, _. split; [exact Hrun|]. split.
  { cbn [store upd]. apply list_lookup_insert_eq. by eapply lookup_lt_Some. }
  set (s' := session_after dd ai t s) in *.
  destruct (player_after_fields now s' p) as (Hb & _ & _ & Hpre & _).
  cbv zeta in Hb, Hpre. rewrite Hb. split; [exact Hpre|].
  set (p1 := stats_after now (correct s') p) in *.
  assert (Hp1 : level p1 = level p ∧ xp p1 = xp p ∧
                brushes_unlocked p1 = brushes_unlocked p).
  { subst p1. unfold stats_after. by destruct (correct s'). }
  destruct Hp1 as (Hp1l & Hp1x & Hp1b).
  destruct (unlock_fold_spec unlocks (add_xp (score s') p1).1) as (_ & _ & Hmem & _).
  cbv zeta in Hmem. fold (brushes_after (add_xp (score s') p1).1) in Hmem.
  destruct (add_xp_frame (score s') p1) as (_ & _ & _ & _ & _ & Hab & _).
  cbv zeta in Hab.
  intros b. rewrite Hmem, Hab, Hp1b, Hup.
  destruct (Z.le_gt_cases (level p1 * 100) (xp p1 + score s')) as [Hle|Hgt].
  - rewrite (add_xp_level_up _ _ Hle). cbn [fst snd level set_xp set_level].
    by rewrite Hp1l.
  - rewrite (add_xp_stay _ _ Hgt). cbn [fst snd level set_xp].
    rewrite Hp1l. by rewrite Z.add_0_r.
Qed.

Lemma complete_session_brushes_witness :
  ∃ gm' res p',
    complete_session 9 "s-1" "png" (demo_ai true 80) 3 demo_gm = (gm', Ok res) ∧
    store gm' !! 0%nat = Some p' ∧
    brushes_unlocked demo_player `prefix_of` brushes_unlocked p'.
Proof.
  destruct (complete_session_brushes 9 "s-1" "png" (demo_ai true 80) 3
              demo_gm demo_session demo_player demo_gm_session demo_gm_player)
    as (gm' & res & p' & H1 & H2 & H3 & _).
  by exists gm', res, p'.
Defined.

(** X25. The achievements a completion reports are exactly the ones it
    appends to the player's list: none of them was held before, none is
    reported twice, each carries its entry of the table, and their
    bonuses sum to at most 1000 xp. *)
Theorem complete_session_records_achievements now sid dd ai t gm s p :
  sessions gm !! sid = Some s →
  store gm !! player s = Some p →
  ∃ gm' res p',
    complete_session now sid dd ai t gm = (gm', Ok res) ∧
    store gm' !! player s = Some p' ∧
    achievements p' = (achievements p ++ (unlocked_id <$> unlocked res))%list ∧
    NoDup (unlocked_id <$> unlocked res) ∧
    (∀ u, u ∈ unlocked res →
       (unlocked_id u ∉ achievements p) ∧
       unlocked_id u ∈ awardable ∧
       assoc (unlocked_id u) ACHIEVEMENTS = Some (unlocked_info u)) ∧
    0 ≤ foldr (λ u acc, ach_xp (unlocked_info u) + acc) 0 (unlocked res) ≤ 1000.
Proof.
  intros Hs Hp.
  destruct (complete_session_result now sid dd ai t gm s p Hs Hp)
    as (gm' & res & Hrun & -> & _ & _ & _ & Hun & _).
  cbv zeta in *. eexists _, res, _. split; [exact Hrun|]. split.
  { cbn [store upd]. apply list_lookup_insert_eq. by eapply lookup_lt_Some. }
  set (s' := session_after dd ai t s) in *.
  destruct (player_after_fields now s' p) as (_ & Ha & Hqa & _).
  cbv zeta in Ha, Hqa. rewrite Hun, unlocked_ids_eq.
  set (q := brushes_after (add_xp (score s') (stats_after now (correct s') p)).1) in *.
  rewrite (rows_of_ids _ (newly_unlocked_known q s')), rows_of_bonus.
  split_and!.
  - exact Ha.
  - apply newly_unlocked_NoDup.
  - intros u Hu. pose proof (rows_of_info _ _ Hu) as Hinfo.
    assert (Hin : unlocked_id u ∈ newly_unlocked q s').
    { rewrite <- (rows_of_ids _ (newly_unlocked_known q s')).
      by apply list_elem_of_fmap_2. }
    apply newly_unlocked_awardable in Hin as [Haw Hnew].
    rewrite Hqa in Hnew. by split_and!.
  - apply bonus_sum_nonneg.
  - unfold newly_unlocked, fired.
    repeat match goal with
           | |- context [if ?c then _ else _] => destruct c
           end; vm_compute; by intros [=].
Qed.

Lemma complete_session_records_achievements_witness :
  ∃ gm' res p',
    complete_session 9 "s-1" "png" (demo_ai true 80) 3 demo_gm = (gm', Ok res) ∧
    store gm' !! 0%nat = Some p' ∧
    achievements p'
    = (achievements demo_player ++ (unlocked_id <$> unlocked res))%list.
Proof.
  destruct (complete_session_records_achievements 9 "s-1" "png" (demo_ai true 80) 3
              demo_gm demo_session demo_player demo_gm_session demo_gm_player)
    as (gm' & res & p' & H1 & H2 & H3 & _).
  by exists gm', res, p'.
Defined.
